(** * acm_lib: the ledger-backed file system and the signal bus

    A shallow embedding of [src/acm_lib.ts].  The host runtime
    (scoreboard objectives, the JSON codec, the console) is not part of
    the repository; it is modelled in the first sections, the library's
    own classes follow, one module per class, and the properties come
    last. *)

From Stdlib Require Import ZArith Lia Ascii String List Bool.
From stdpp Require Import base option list strings gmap pretty.

Local Open Scope string_scope.

(** ** JavaScript strings

    Strings are sequences of one-byte characters; the methods below are
    the ones the library calls, with the JavaScript meaning restricted
    to that alphabet. *)

(** [s.startsWith(searchString)] *)
Fixpoint startsWith (s searchString : string) {struct searchString} : bool :=
  match searchString, s with
  | EmptyString, _ => true
  | String _ _, EmptyString => false
  | String a p, String b s' => Ascii.eqb a b && startsWith s' p
  end.

(** [s.includes(searchString)]: some suffix of [s] starts with it. *)
Fixpoint includes (s searchString : string) : bool :=
  startsWith s searchString ||
  match s with
  | EmptyString => false
  | String _ s' => includes s' searchString
  end.

(** [s.slice(n)] *)
Fixpoint slice (n : nat) (s : string) : string :=
  match n, s with
  | O, _ => s
  | S _, EmptyString => EmptyString
  | S n', String _ s' => slice n' s'
  end.

(** [s.replace(pattern, replacement)] with a string pattern: only the
    first occurrence is replaced.  (The replacement text is used
    literally; the library only ever passes the empty string.) *)
Fixpoint replace (s pattern replacement : string) : string :=
  if startsWith s pattern
  then replacement +:+ slice (String.length pattern) s
  else match s with
       | EmptyString => EmptyString
       | String a s' => String a (replace s' pattern replacement)
       end.

(** [s.split(":")[0]]: the text before the first colon. *)
Fixpoint before_colon (s : string) : string :=
  match s with
  | EmptyString => EmptyString
  | String a s' =>
      if Ascii.eqb a ":"%char then EmptyString else String a (before_colon s')
  end.

(** [s.toUpperCase()], and [s.toLocaleUpperCase()] in a host without
    locale data, on ASCII text: the letters a-z are mapped, every other
    character is kept.  JavaScript also maps letters outside ASCII; the
    definition is the JavaScript method on the texts that satisfy
    [ascii_only]. *)
Definition upper (a : ascii) : ascii :=
  let n := nat_of_ascii a in
  if (97 <=? n)%nat && (n <=? 122)%nat then ascii_of_nat (n - 32) else a.

Fixpoint toUpperCase (s : string) : string :=
  match s with
  | EmptyString => EmptyString
  | String a s' => String (upper a) (toUpperCase s')
  end.

(** The text is made of ASCII characters. *)
Fixpoint ascii_only (s : string) : bool :=
  match s with
  | EmptyString => true
  | String a s' => (nat_of_ascii a <? 128)%nat && ascii_only s'
  end.

(** ** Errors, results and effects *)

(** Every failure of the library is a JavaScript [Error] carrying a
    message; the constructors below stand for the messages:
    - [NotFound f]: "File f does not exist", "Source file f does not
      exist", "Directory f does not exist";
    - [AlreadyExists f]: "File f already exists", "Destination file f
      already exists";
    - [NotOwner db addon]: "Directory db does not belong to addon: addon";
    - [Uninitialized]: "Addon data not found";
    - [SyntaxError text]: thrown by [JSON.parse] on [text];
    - [TypeError]: a property read on [undefined];
    - [HostError msg]: the host scoreboard refused a call. *)
Inductive Error : Type :=
| NotFound (what : string)
| AlreadyExists (what : string)
| NotOwner (dbId localId : string)
| Uninitialized
| SyntaxError (text : string)
| TypeError
| HostError (msg : string).

Inductive result (A : Type) : Type :=
| Return (a : A)
| Throw (e : Error).
Arguments Return {A} a.
Arguments Throw {A} e.

(** A call runs on a mutable state [S]; a thrown error leaves the state
    as it was when the error was raised (nothing is rolled back). *)
Definition Eff (S A : Type) : Type := S -> result A * S.

Definition ret {S A} (a : A) : Eff S A := fun s => (Return a, s).
Definition throw {S A} (e : Error) : Eff S A := fun s => (Throw e, s).
Definition bind {S A B} (k : A -> Eff S B) (m : Eff S A) : Eff S B :=
  fun s => match m s with
           | (Return a, s') => k a s'
           | (Throw e, s') => (Throw e, s')
           end.

#[global] Instance Eff_ret {S} : MRet (Eff S) := @ret S.
#[global] Instance Eff_bind {S} : MBind (Eff S) := @bind S.

(** [try { m } catch (error) { h error }] *)
Definition try_catch {S A} (m : Eff S A) (h : Error -> Eff S A) : Eff S A :=
  fun s => match m s with
           | (Return a, s') => (Return a, s')
           | (Throw e, s') => h e s'
           end.

(** The settled state of the promise an [async] function returns. *)
Inductive Promise (A : Type) : Type :=
| Fulfilled (a : A)
| Rejected (e : Error).
Arguments Fulfilled {A} a.
Arguments Rejected {A} e.

(** [async] function with no [await] in its body: the body runs to its
    end during the call, and an error it throws rejects the returned
    promise instead of reaching the caller. *)
Definition async {S A} (body : Eff S A) : Eff S (Promise A) :=
  fun s => match body s with
           | (Return a, s') => (Return (Fulfilled a), s')
           | (Throw e, s') => (Return (Rejected e), s')
           end.

(** ** The JSON codec

    [JSON.stringify] and [JSON.parse] belong to the host language.  They
    are taken as an interface over the type [any] of contents;
    [JSON_parse] answers [None] where JavaScript throws a SyntaxError. *)
Class Json (any : Type) : Type := {
  JSON_stringify : any -> string;
  JSON_parse : string -> option any
}.

(** A content is serializable when parsing its text gives it back. *)
Definition serializable `{Json any} (c : any) : Prop :=
  JSON_parse (JSON_stringify c) = Some c.

(** The fragment of JSON made of its three literals, written without
    white space, used to run the library on concrete contents. *)
Inductive literal : Type := JNull | JTrue | JFalse.

Definition literal_stringify (v : literal) : string :=
  match v with
  | JNull => "null"
  | JTrue => "true"
  | JFalse => "false"
  end.

Definition literal_parse (text : string) : option literal :=
  if String.eqb text "null" then Some JNull
  else if String.eqb text "true" then Some JTrue
  else if String.eqb text "false" then Some JFalse
  else None.

#[global] Instance literal_Json : Json literal :=
  {| JSON_stringify := literal_stringify; JSON_parse := literal_parse |}.

(** ** The host ledger store (scoreboard) *)

(** Modelled from the spec: the host's [ScoreboardObjective], which is
    not part of the repository ("a named ledger is a collection of
    entries; each entry is a unique display string paired with an
    integer").  An objective has an id, a display name and its
    participants with their scores, listed in insertion order. *)
Record ScoreboardObjective : Type := {
  id : string;
  displayName : string;
  scores : list (string * Z)
}.

Definition with_scores (o : ScoreboardObjective) (l : list (string * Z)) :=
  {| id := id o; displayName := displayName o; scores := l |}.

(** Modelled from the spec: the display names of the entries
    (list-entries), and the score of one of them. *)
Definition participants (o : ScoreboardObjective) : list string :=
  map fst (scores o).

Definition score (o : ScoreboardObjective) (participant : string) : option Z :=
  snd <$> List.find (fun e => String.eqb (fst e) participant) (scores o).

(** [objective.getParticipants()] *)
Definition getParticipants : Eff ScoreboardObjective (list string) :=
  fun o => (Return (participants o), o).

(** [objective.getScore(participant)] *)
Definition getScore (participant : string)
  : Eff ScoreboardObjective (option Z) :=
  fun o => (Return (score o participant), o).

(** Modelled from the spec: set-entry(string,int).  A participant given
    by a string is identified by that string: setting the score of a
    string that is already a participant changes its score in place,
    any other string is added after the existing participants.  The
    place of a new participant in the list is a choice of this model:
    the spec leaves the order in which the host lists the participants
    undefined. *)
Fixpoint set_entry (l : list (string * Z)) (participant : string) (score : Z)
  : list (string * Z) :=
  match l with
  | [] => [(participant, score)]
  | (p, v) :: l' =>
      if String.eqb p participant then (p, score) :: l'
      else (p, v) :: set_entry l' participant score
  end.

(** [objective.setScore(participant, score)] *)
Definition setScore (participant : string) (score : Z)
  : Eff ScoreboardObjective unit :=
  fun o => (Return tt, with_scores o (set_entry (scores o) participant score)).

(** Modelled from the spec: remove-entry,
    [objective.removeParticipant(participant)]; it answers whether the
    participant was there. *)
Definition removeParticipant (participant : string)
  : Eff ScoreboardObjective bool :=
  fun o =>
    (Return (existsb (fun e => String.eqb (fst e) participant) (scores o)),
     with_scores o
       (List.filter (fun e => negb (String.eqb (fst e) participant)) (scores o))).

(** ** Addon metadata *)

Inductive SettingsWidget : Type :=
| TextFieldWidget (label placeholder : string) (value : option string)
| DropdownWidget (label : string) (options : list string)
                 (valueIndex : option nat) (value : option string)
| SliderWidget (label : string) (min max step : Z) (value : option Z)
| ToggleWidget (label : string) (value : option bool).

Record SettingsCatagory : Type := {
  title : string;
  settings_of : list SettingsWidget;
  category_iconPath : option string
}.

Record ExtensionData : Type := {
  extension_id : string;
  extension_iconPath : option string
}.

Record Description : Type := {
  version : string;
  author : string;
  packId : string;
  dependencies : option (list string)
}.

Record AddonData : Type := {
  formatVersion : string;
  description : Description;
  iconPath : option string;
  guideKeys : option (list string);
  extensions : option (list ExtensionData);
  settings : option (list SettingsWidget + list SettingsCatagory)
}.

(** ** The process state seen by the file system and the settings loader

    The host scoreboard maps objective ids to objectives;
    [AcmLib_addonData] is the [addonData] field of the [AcmLib]
    singleton; [warnings] collects the lines sent to [console.warn]. *)
Record World : Type := {
  scoreboard : gmap string ScoreboardObjective;
  AcmLib_addonData : option AddonData;
  warnings : list string
}.

Definition with_scoreboard (w : World) (sb : gmap string ScoreboardObjective) :=
  {| scoreboard := sb; AcmLib_addonData := AcmLib_addonData w;
     warnings := warnings w |}.

(** Modelled from the spec: the host's [Scoreboard] (get-named-ledger,
    create-named-ledger, delete-ledger).  A new objective is empty and
    displays its id; creating an id that is in use is refused. *)
Definition getObjective (objectiveId : string)
  : Eff World (option ScoreboardObjective) :=
  fun w => (Return (scoreboard w !! objectiveId), w).

Definition addObjective (objectiveId : string) : Eff World ScoreboardObjective :=
  fun w =>
    match scoreboard w !! objectiveId with
    | Some _ => (Throw (HostError "objective already exists"), w)
    | None =>
        let db := {| id := objectiveId; displayName := objectiveId; scores := [] |} in
        (Return db, with_scoreboard w (<[objectiveId := db]> (scoreboard w)))
    end.

Definition removeObjective (objectiveId : string) : Eff World bool :=
  fun w =>
    (Return (bool_decide (scoreboard w !! objectiveId ≠ None)),
     with_scoreboard w (base.delete objectiveId (scoreboard w))).

Definition console_warn (line : string) : Eff World unit :=
  fun w => (Return tt,
            {| scoreboard := scoreboard w; AcmLib_addonData := AcmLib_addonData w;
               warnings := warnings w ++ [line] |}).

Definition get_addonData : Eff World (option AddonData) :=
  fun w => (Return (AcmLib_addonData w), w).

(** ** class Directory *)

Module Directory.

(** A directory holds a reference to its objective (the objective's
    id), the objective's display name and the upper-cased identifier
    of the addon that made the object. *)
Record t : Type := {
  objective : string;
  dbId : string;
  localId : string
}.

Section Methods.
Context {any : Type} `{Json any}.
Variable this : t.

Abbreviation M := (Eff ScoreboardObjective).

Definition getKeyIdentity (fileName : string) : M (option string) :=
  participants ← getParticipants;
  mret (List.find (fun p => startsWith p (fileName +:+ ":")) participants).

Definition getKeyData (fileName identity : string) : M any :=
  let text := replace identity (fileName +:+ ":") "" in
  match JSON_parse text with
  | Some content => mret content
  | None => throw (SyntaxError text)
  end.

Definition isOwner : M bool :=
  if negb (includes (dbId this) (localId this))
  then throw (NotOwner (dbId this) (localId this))
  else mret true.

Definition exists_ (fileName : string) : M bool :=
  identity ← getKeyIdentity fileName;
  mret (bool_decide (identity ≠ None)).

Definition read (fileName : string) : M any :=
  found ← exists_ fileName;
  if negb found then throw (NotFound fileName) else
  identity ← getKeyIdentity fileName;
  match identity with
  | None => throw (NotFound fileName)
  | Some identity => getKeyData fileName identity
  end.

Definition write (fileName : string) (content : any) (allowOverwrite : bool)
  : M (Promise unit) :=
  async (
    let dataKey := fileName +:+ ":" +:+ JSON_stringify content in
    found ← exists_ fileName;
    if found && negb allowOverwrite then throw (AlreadyExists fileName) else
    owner ← isOwner;
    if negb owner then mret tt else
    participants ← getParticipants;
    let slotNumber := Z.of_nat (length participants) in
    setScore dataKey slotNumber).

Definition delete (fileName : string) : M unit :=
  found ← exists_ fileName;
  if negb found then throw (NotFound fileName) else
  owner ← isOwner;
  if negb owner then mret tt else
  identity ← getKeyIdentity fileName;
  match identity with
  | None => throw (NotFound fileName)
  | Some identity => _ ← removeParticipant identity; mret tt
  end.

Definition rename (oldFileName newFileName : string) : M unit :=
  foundOld ← exists_ oldFileName;
  if negb foundOld then throw (NotFound oldFileName) else
  foundNew ← exists_ newFileName;
  if (foundNew : bool) then throw (AlreadyExists newFileName) else
  owner ← isOwner;
  if negb owner then mret tt else
  identity ← getKeyIdentity oldFileName;
  match identity with
  | None => throw (NotFound oldFileName)
  | Some identity =>
      content ← getKeyData oldFileName identity;
      _ ← delete oldFileName;
      _ ← write newFileName content true;
      mret tt
  end.

Definition copy (sourceFileName destinationFileName : string) : M unit :=
  foundSource ← exists_ sourceFileName;
  if negb foundSource then throw (NotFound sourceFileName) else
  foundDestination ← exists_ destinationFileName;
  if (foundDestination : bool) then throw (AlreadyExists destinationFileName) else
  owner ← isOwner;
  if negb owner then mret tt else
  identity ← getKeyIdentity sourceFileName;
  match identity with
  | None => throw (NotFound sourceFileName)
  | Some identity =>
      content ← getKeyData sourceFileName identity;
      _ ← write destinationFileName content true;
      mret tt
  end.

Definition move (sourceFileName destinationFileName : string) : M unit :=
  _ ← isOwner;
  _ ← copy sourceFileName destinationFileName;
  delete sourceFileName.

Definition fileSize (fileName : string) : M nat :=
  found ← exists_ fileName;
  if negb found then throw (NotFound fileName) else
  identity ← getKeyIdentity fileName;
  match identity with
  | None => throw (NotFound fileName)
  | Some identity =>
      content ← getKeyData fileName identity;
      mret (String.length (JSON_stringify content))
  end.

Definition size : M nat :=
  participants ← getParticipants;
  mret (fold_left (fun length p => length + String.length p) participants 0).

Definition list_ : M (list string) :=
  participants ← getParticipants;
  mret (map before_colon participants).

End Methods.

(** [Directory.create(objective)]: the constructor reads the addon's
    identity from [AcmLib] and the display name from the objective. *)
Definition create (objective : ScoreboardObjective) : Eff World t :=
  addonData ← get_addonData;
  match addonData with
  | None => throw Uninitialized
  | Some addonData =>
      let localId := author (description addonData) +:+ "_" +:+
                     packId (description addonData) in
      mret {| objective := id objective;
              dbId := displayName objective;
              localId := toUpperCase localId |}
  end.

End Directory.

(** ** class FsSys *)

Definition ROOT_DIR : string := "ACM:FS".

Module FsSys.

Definition getLocalId : Eff World string :=
  addonData ← get_addonData;
  match addonData with
  | None => throw Uninitialized
  | Some addonData =>
      mret (author (description addonData) +:+ "_" +:+
            packId (description addonData))
  end.

Definition _format (name : string) : Eff World string :=
  localId ← getLocalId;
  mret (ROOT_DIR +:+ "." +:+ toUpperCase localId +:+ "." +:+ toUpperCase name).

End FsSys.

(** ** class FsDir (the directory registry)

    The registry is built by [FsSys] with the host scoreboard and
    [FsSys._format]. *)
Module FsDir.

Definition format := FsSys._format.

Definition isValid (name : string) : Eff World bool :=
  formatted ← format name;
  db ← getObjective formatted;
  mret (bool_decide (db ≠ None)).

Definition get (name : string) : Eff World (option Directory.t) :=
  formatted ← format name;
  db ← getObjective formatted;
  match db with
  | None => mret None
  | Some db => dir ← Directory.create db; mret (Some dir)
  end.

Definition new (name : string) (ignoreWarn : bool) : Eff World Directory.t :=
  formatedName ← format name;
  valid ← isValid name;
  existing ← (if (valid : bool) then
                _ ← (if negb ignoreWarn
                     then console_warn ("Directory " +:+ formatedName +:+
                                        " already exists")
                     else mret tt);
                get name
              else mret None);
  match existing with
  | Some db => mret db
  | None => db ← addObjective formatedName; Directory.create db
  end.

Definition delete (name : string) : Eff World unit :=
  db ← get name;
  match db with
  | None => throw (NotFound name)
  | Some _ =>
      formatted ← format name;
      _ ← removeObjective formatted;
      mret tt
  end.

End FsDir.

(** ** class AcmLibrary: loading the settings *)

(** The values a settings object holds. *)
#[warnings="-register-all"] Inductive Value : Type :=
| VUndefined
| VString (s : string)
| VNumber (n : Z)
| VBool (b : bool)
| VObject (fields : gmap string Value).

Definition of_option {A} (inj : A -> Value) (v : option A) : Value :=
  match v with
  | Some a => inj a
  | None => VUndefined
  end.

(** [object[key] = value] on an object made by the literal [{}].  A map
    of type [gmap string Value] lists the own properties of such an
    object.  The key [__proto__] names the accessor the object inherits
    from [Object.prototype]: assigning to it adds no own property (it
    replaces the prototype when the value is an object, and does
    nothing for any other value). *)
Definition set_property (object : gmap string Value) (key : string)
    (value : Value) : gmap string Value :=
  if String.eqb key "__proto__" then object else <[key := value]> object.

Definition widget_label (setting : SettingsWidget) : string :=
  match setting with
  | TextFieldWidget label _ _ => label
  | DropdownWidget label _ _ _ => label
  | SliderWidget label _ _ _ _ => label
  | ToggleWidget label _ => label
  end.

Module AcmLibrary.

Section Settings.
(** [JSON.parse(text) as SettingsWidget[]] *)
Variable JSON_parse_settings : string -> option (list SettingsWidget).

(** The template reads the fields through [?.]: without addon data
    both print as "undefined". *)
Definition identifier : Eff World string :=
  addonData ← get_addonData;
  mret (match addonData with
        | Some a => author (description a) +:+ "_" +:+ packId (description a)
        | None => "undefined_undefined"
        end).

Definition isSettingsCatagory
    (settings : option (list SettingsWidget + list SettingsCatagory))
  : Eff World bool :=
  match settings with
  | None => throw TypeError
  | Some (inl _) => mret false
  | Some (inr categories) => mret (bool_decide (categories ≠ []))
  end.

(** An absent or empty [categoryTitle] selects the addon's flat
    settings objective. *)
Definition getSettingsDatabase (categoryTitle : option string)
  : Eff World (option ScoreboardObjective) :=
  identifier ← identifier;
  let identifier := toUpperCase identifier in
  let objectiveName :=
    match categoryTitle with
    | Some (String a t) =>
        "ACM:" +:+ identifier +:+ "_" +:+ toUpperCase (String a t)
    | _ => "ACM:" +:+ identifier
    end in
  getObjective objectiveName.

Definition getRawSettingsData (db : ScoreboardObjective) : option string :=
  List.find (fun participant => bool_decide (score db participant = Some 0%Z))
            (participants db).

Definition parseSettingsArray (rawSettingsData : string)
  : Eff World (list SettingsWidget) :=
  match JSON_parse_settings rawSettingsData with
  | Some settingsArray => mret settingsArray
  | None => throw (SyntaxError rawSettingsData)
  end.

(** Only a dropdown has [options]; an empty or missing option reads
    as [undefined]. *)
Definition processSetting (setting : SettingsWidget) : Value :=
  match setting with
  | DropdownWidget _ options (Some valueIndex) _ =>
      match nth_error options valueIndex with
      | Some (String a v) => VString (String a v)
      | _ => VUndefined
      end
  | DropdownWidget _ _ None value => of_option VString value
  | TextFieldWidget _ _ value => of_option VString value
  | SliderWidget _ _ _ _ value => of_option VNumber value
  | ToggleWidget _ value => of_option VBool value
  end.

(** [settingsArray.forEach(setting => object[setting.label] = ...)] *)
Definition collect (settingsArray : list SettingsWidget) : gmap string Value :=
  fold_left (fun object setting =>
               set_property object (widget_label setting)
                            (processSetting setting))
            settingsArray ∅.

Definition processCategorySettings (category : SettingsCatagory)
  : Eff World (gmap string Value) :=
  db ← getSettingsDatabase (Some (title category));
  match db with
  | None => mret ∅
  | Some db =>
      match getRawSettingsData db with
      | None => mret ∅
      | Some rawSettingsData =>
          settingsArray ← parseSettingsArray rawSettingsData;
          mret (collect settingsArray)
      end
  end.

Definition processFlatSettings : Eff World (gmap string Value) :=
  db ← getSettingsDatabase None;
  match db with
  | None => mret ∅
  | Some db =>
      match getRawSettingsData db with
      | None => mret ∅
      | Some rawSettingsData =>
          settingsArray ← parseSettingsArray rawSettingsData;
          mret (collect settingsArray)
      end
  end.

Fixpoint forEach_category (categories : list SettingsCatagory)
    (settingsObject : gmap string Value) : Eff World (gmap string Value) :=
  match categories with
  | [] => mret settingsObject
  | category :: rest =>
      categoryObject ← processCategorySettings category;
      forEach_category rest
        (set_property settingsObject (title category)
                      (VObject categoryObject))
  end.

Definition loadSettingsData : Eff World (gmap string Value) :=
  addonData ← get_addonData;
  match addonData with
  | None => mret ∅
  | Some addonData =>
      isCategory ← isSettingsCatagory (settings addonData);
      if (isCategory : bool) then
        match settings addonData with
        | Some (inr categories) => forEach_category categories ∅
        | _ => mret ∅
        end
      else
        flat ← processFlatSettings;
        mret (flat ∪ ∅)
  end.

End Settings.

End AcmLibrary.

(** ** The signal bus

    The four signal classes ([OnAddonReadyEventSignal],
    [OnCustomSignalEmittedEventSignal], [OnSettingsChangedEventSignal],
    [OnExtensionTriggerdEventSignal]) have the same text up to the class
    name and the event type; [Channel] names the class and the methods
    below are written once over it. *)

Inductive Channel : Type :=
| OnAddonReady
| OnCustomSignalEmitted
| OnSettingsChanged
| OnExtensionTriggerd.

#[global] Instance Channel_eq_dec : EqDecision Channel.
Proof. solve_decision. Defined.

(** The host's [Player], by its entity id. *)
Definition Player : Type := string.

Record OnAddonReadyEvent : Type := { addonData : AddonData }.

Record OnCustomSignalEmittedEvent (any : Type) : Type := {
  addonId : string;
  emitterId : string;
  data : option any
}.

Record OnSettingsChangedEvent : Type := {
  settingsData : gmap string Value;
  settings_player : option Player
}.

Record OnExtensionTriggerdEvent : Type := {
  extensionId : string;
  player : Player
}.

Module Signal.

(** A subscriber is a function; the set compares functions by
    identity, which a number stands for. *)
Definition Callback : Type := nat.

(** The [private static subscribers] field of each class: a
    JavaScript [Set], listed in insertion order. *)
Record Statics : Type := {
  OnAddonReady_subscribers : list Callback;
  OnCustomSignalEmitted_subscribers : list Callback;
  OnSettingsChanged_subscribers : list Callback;
  OnExtensionTriggerd_subscribers : list Callback
}.

Definition subscribers (c : Channel) (st : Statics) : list Callback :=
  match c with
  | OnAddonReady => OnAddonReady_subscribers st
  | OnCustomSignalEmitted => OnCustomSignalEmitted_subscribers st
  | OnSettingsChanged => OnSettingsChanged_subscribers st
  | OnExtensionTriggerd => OnExtensionTriggerd_subscribers st
  end.

Definition set_subscribers (c : Channel) (l : list Callback) (st : Statics)
  : Statics :=
  match c with
  | OnAddonReady =>
      {| OnAddonReady_subscribers := l;
         OnCustomSignalEmitted_subscribers := OnCustomSignalEmitted_subscribers st;
         OnSettingsChanged_subscribers := OnSettingsChanged_subscribers st;
         OnExtensionTriggerd_subscribers := OnExtensionTriggerd_subscribers st |}
  | OnCustomSignalEmitted =>
      {| OnAddonReady_subscribers := OnAddonReady_subscribers st;
         OnCustomSignalEmitted_subscribers := l;
         OnSettingsChanged_subscribers := OnSettingsChanged_subscribers st;
         OnExtensionTriggerd_subscribers := OnExtensionTriggerd_subscribers st |}
  | OnSettingsChanged =>
      {| OnAddonReady_subscribers := OnAddonReady_subscribers st;
         OnCustomSignalEmitted_subscribers := OnCustomSignalEmitted_subscribers st;
         OnSettingsChanged_subscribers := l;
         OnExtensionTriggerd_subscribers := OnExtensionTriggerd_subscribers st |}
  | OnExtensionTriggerd =>
      {| OnAddonReady_subscribers := OnAddonReady_subscribers st;
         OnCustomSignalEmitted_subscribers := OnCustomSignalEmitted_subscribers st;
         OnSettingsChanged_subscribers := OnSettingsChanged_subscribers st;
         OnExtensionTriggerd_subscribers := l |}
  end.

(** [set.add(x)] keeps the place of an element that is already in the
    set; [set.delete(x)] removes it. *)
Definition Set_add (x : Callback) (set : list Callback) : list Callback :=
  if bool_decide (x ∈ set) then set else set ++ [x].

Definition Set_delete (x : Callback) (set : list Callback) : list Callback :=
  List.filter (fun y => negb (Nat.eqb y x)) set.

(** An instance of a signal class: an object with no field of its
    own, told from the other instances by its identity. *)
Record Instance : Type := {
  class : Channel;
  object : nat
}.

Section Bus.
Context {any : Type}.

(** The event type of each class. *)
Definition Event (c : Channel) : Type :=
  match c with
  | OnAddonReady => OnAddonReadyEvent
  | OnCustomSignalEmitted => OnCustomSignalEmittedEvent any
  | OnSettingsChanged => OnSettingsChangedEvent
  | OnExtensionTriggerd => OnExtensionTriggerdEvent
  end.

(** What the subscribed functions do is the application's business:
    [run c f event] is the call [f(event)] of the function [f]
    subscribed to [c], acting on the application's own state [App],
    returning or throwing.  The functions do not subscribe or
    unsubscribe while an emission is running. *)
Variable App : Type.
Variable run : forall c : Channel, Callback -> Event c -> Eff App unit.

(** The state of the bus: the static sets, the objects made so far,
    the application state, the lines of [console.error] and the
    record of the calls made by [emit]. *)
Record Runtime : Type := {
  statics : Statics;
  objects : nat;
  app : App;
  errors : list (string * Error);
  calls : list (Channel * Callback)
}.

Definition create (c : Channel) : Eff Runtime Instance :=
  fun r => (Return {| class := c; object := objects r |},
            {| statics := statics r; objects := S (objects r); app := app r;
               errors := errors r; calls := calls r |}).

Definition update_subscribers (c : Channel)
    (f : list Callback -> list Callback) : Eff Runtime unit :=
  fun r => (Return tt,
            {| statics := set_subscribers c (f (subscribers c (statics r)))
                                          (statics r);
               objects := objects r; app := app r;
               errors := errors r; calls := calls r |}).

Definition subscribe (this : Instance) (callback : Callback)
  : Eff Runtime Callback :=
  _ ← update_subscribers (class this) (Set_add callback);
  mret callback.

Definition unsubscribe (this : Instance) (callback : Callback)
  : Eff Runtime unit :=
  update_subscribers (class this) (Set_delete callback).

(** [callback(event)] *)
Definition call (c : Channel) (callback : Callback) (event : Event c)
  : Eff Runtime unit :=
  fun r =>
    let '(outcome, a) := run c callback event (app r) in
    (outcome,
     {| statics := statics r; objects := objects r; app := a;
        errors := errors r; calls := calls r ++ [(c, callback)] |}).

Definition eventName (c : Channel) : string :=
  match c with
  | OnAddonReady => "OnAddonReadyEvent"
  | OnCustomSignalEmitted => "OnCustomSignalEmittedEvent"
  | OnSettingsChanged => "OnSettingsChangedEvent"
  | OnExtensionTriggerd => "OnExtensionTriggerdEvent"
  end.

Definition console_error (line : string) (error : Error) : Eff Runtime unit :=
  fun r => (Return tt,
            {| statics := statics r; objects := objects r; app := app r;
               errors := errors r ++ [(line, error)]; calls := calls r |}).

(** [for (const x of set) body] *)
Fixpoint for_of (set : list Callback) (body : Callback -> Eff Runtime unit)
  : Eff Runtime unit :=
  match set with
  | [] => mret tt
  | x :: rest => _ ← body x; for_of rest body
  end.

Definition get_subscribers (c : Channel) : Eff Runtime (list Callback) :=
  fun r => (Return (subscribers c (statics r)), r).

(** The static method [emit] of the class [c]. *)
Definition emit (c : Channel) (event : Event c) : Eff Runtime unit :=
  set ← get_subscribers c;
  for_of set (fun callback =>
    try_catch (call c callback event)
              (fun error =>
                 console_error ("Error @ACM:" +:+ eventName c +:+
                                " global subscriber:") error)).

End Bus.

End Signal.

Arguments Signal.statics {App} r.
Arguments Signal.objects {App} r.
Arguments Signal.app {App} r.
Arguments Signal.errors {App} r.
Arguments Signal.calls {App} r.
Arguments Signal.create {App} c.
Arguments Signal.subscribe {App} this callback.
Arguments Signal.unsubscribe {App} this callback.
Arguments Signal.emit {any App} run c event.
Arguments Signal.call {any App} run c callback event.
Arguments Signal.console_error {App} line error.
Arguments Signal.for_of {App} set body.
Arguments Signal.get_subscribers {App} c.
Arguments Signal.update_subscribers {App} c f.

(** ** class Events: one instance of each signal class *)
Record Events : Type := {
  Events_OnAddonReady : Signal.Instance;
  Events_OnSettingsChanged : Signal.Instance;
  Events_OnExtensionTriggerd : Signal.Instance;
  Events_OnCustomSignalEmitted : Signal.Instance
}.

Definition Events_create {App : Type} : Eff (Signal.Runtime App) Events :=
  a ← Signal.create OnAddonReady;
  s ← Signal.create OnSettingsChanged;
  e ← Signal.create OnExtensionTriggerd;
  c ← Signal.create OnCustomSignalEmitted;
  mret {| Events_OnAddonReady := a; Events_OnSettingsChanged := s;
          Events_OnExtensionTriggerd := e; Events_OnCustomSignalEmitted := c |}.

(** ** Views of a ledger used in the statements *)

(** The first participant that stands for [fileName], if any; whether
    there is one; all of them. *)
Definition entry (fileName : string) (o : ScoreboardObjective) : option string :=
  List.find (fun p => startsWith p (fileName +:+ ":")) (participants o).

Definition has (fileName : string) (o : ScoreboardObjective) : bool :=
  bool_decide (entry fileName o ≠ None).

Definition matching (fileName : string) (o : ScoreboardObjective) : list string :=
  List.filter (fun p => startsWith p (fileName +:+ ":")) (participants o).

(** The directory may change its ledger. *)
Definition owned (d : Directory.t) : Prop :=
  includes (Directory.dbId d) (Directory.localId d) = true.

(** The error raised by [isOwner] for a directory that is not owned. *)
Definition denied (d : Directory.t) : Error :=
  NotOwner (Directory.dbId d) (Directory.localId d).

(** Concrete directories and ledgers for the examples: a directory of
    the addon ME_PACK, and one made by ME_PACK over the ledger of
    another addon. *)
Definition mine : Directory.t :=
  {| Directory.objective := "ACM:FS.ME_PACK.LOGS";
     Directory.dbId := "ACM:FS.ME_PACK.LOGS";
     Directory.localId := "ME_PACK" |}.

Definition foreign : Directory.t :=
  {| Directory.objective := "ACM:FS.OTHER_PACK.LOGS";
     Directory.dbId := "ACM:FS.OTHER_PACK.LOGS";
     Directory.localId := "ME_PACK" |}.

Definition ledger (name : string) (l : list (string * Z)) : ScoreboardObjective :=
  {| id := name; displayName := name; scores := l |}.

(** Running one call after another on the same state, keeping the last
    answer. *)
Definition and_then {S A B} (m : Eff S A) (k : Eff S B) : Eff S B :=
  fun s => k (snd (m s)).

(** ** Views of the registry used in the statements *)

(** The identifier of the addon [a], the ledger name [FsSys._format]
    gives to a directory name, and the directory object made over an
    objective. *)
Definition localId_of (a : AddonData) : string :=
  author (description a) +:+ "_" +:+ packId (description a).

Definition formatted (a : AddonData) (name : string) : string :=
  ROOT_DIR +:+ "." +:+ toUpperCase (localId_of a) +:+ "." +:+ toUpperCase name.

Definition directory_over (a : AddonData) (db : ScoreboardObjective)
  : Directory.t :=
  {| Directory.objective := id db;
     Directory.dbId := displayName db;
     Directory.localId := toUpperCase (localId_of a) |}.

(** The addon of the examples, and a world where it is initialized. *)
Definition me_pack : AddonData :=
  {| formatVersion := "1.0.0";
     description := {| version := "1.0.0"; author := "me"; packId := "pack";
                       dependencies := None |};
     iconPath := None; guideKeys := None; extensions := None;
     settings := Some (inl []) |}.

Definition world_of (l : list (string * ScoreboardObjective)) : World :=
  {| scoreboard := list_to_map l;
     AcmLib_addonData := Some me_pack;
     warnings := [] |}.

(** ** Views of the settings loader used in the statements *)

(** The name of the settings ledger of the addon [a]: flat, or of a
    category. *)
Definition settings_ledger (a : AddonData) (categoryTitle : option string)
  : string :=
  match categoryTitle with
  | Some (String c t) =>
      "ACM:" +:+ toUpperCase (localId_of a) +:+ "_" +:+ toUpperCase (String c t)
  | _ => "ACM:" +:+ toUpperCase (localId_of a)
  end.

(** [result] is what a loader answers in the world [w] when it takes
    the blob of the ledger [db] from the first participant with score
    zero: the empty object when there is none, the parsed blob turned
    into an object otherwise. *)
Definition reads_slot_zero (parse : string -> option (list SettingsWidget))
    (w : World) (db : ScoreboardObjective)
    (result : result (gmap string Value) * World) : Prop :=
  ((forall q, In q (participants db) -> score db q <> Some 0%Z) ->
   result = (Return ∅, w)) /\
  (forall l1 p l2,
     participants db = (l1 ++ p :: l2)%list ->
     (forall q, In q l1 -> score db q <> Some 0%Z) ->
     score db p = Some 0%Z ->
     result = (match parse p with
               | Some settingsArray => Return (AcmLibrary.collect settingsArray)
               | None => Throw (SyntaxError p)
               end, w)).

(** What both loaders answer from their ledger [db]. *)
Definition blob_of (parse : string -> option (list SettingsWidget))
    (db : ScoreboardObjective) : result (gmap string Value) :=
  match AcmLibrary.getRawSettingsData db with
  | None => Return ∅
  | Some rawSettingsData =>
      match parse rawSettingsData with
      | Some settingsArray => Return (AcmLibrary.collect settingsArray)
      | None => Throw (SyntaxError rawSettingsData)
      end
  end.

(** A settings blob for the examples, [[{"label":"sound","value":true}]],
    and a parser that knows this text and the empty array. *)
Definition dq : string := String (ascii_of_nat 34) EmptyString.

Definition sound_blob : string :=
  "[{" +:+ dq +:+ "label" +:+ dq +:+ ":" +:+ dq +:+ "sound" +:+ dq +:+ "," +:+
  dq +:+ "value" +:+ dq +:+ ":true}]".

Definition parse_known (text : string) : option (list SettingsWidget) :=
  if String.eqb text sound_blob then Some [ToggleWidget "sound" (Some true)]
  else if String.eqb text "[]" then Some []
  else None.

(** ** Views of the signal bus used in the statements *)

(** The line [emit] sends to [console.error] with a caught error. *)
Definition report (c : Channel) : string :=
  "Error @ACM:" +:+ Signal.eventName c +:+ " global subscriber:".

Section BusViews.
Context {any : Type}.
Variable App : Type.
Variable run : forall c : Channel,
    Signal.Callback -> Signal.Event (any := any) c -> Eff App unit.

(** The errors thrown by the functions of [set], called in turn on
    [event] from the application state [a], and the state they
    leave. *)
Fixpoint thrown (c : Channel) (event : Signal.Event c)
    (set : list Signal.Callback) (a : App) : list Error * App :=
  match set with
  | [] => ([], a)
  | f :: rest =>
      match run c f event a with
      | (Return _, a') => thrown c event rest a'
      | (Throw e, a') =>
          let '(es, a'') := thrown c event rest a' in (e :: es, a'')
      end
  end.

(** The application state left by the functions of [set], called in
    turn on [event] from the state [a], and the one left by the single
    call [f(event)]. *)
Definition left_by (c : Channel) (event : Signal.Event c)
    (set : list Signal.Callback) (a : App) : App :=
  snd (thrown c event set a).

Definition left_by_call (c : Channel) (event : Signal.Event c)
    (f : Signal.Callback) (a : App) : App :=
  snd (run c f event a).

(** The calls recorded between two states of the bus, and how many of
    them are calls of [f] as a subscriber of [c]. *)
Definition calls_since (r r' : Signal.Runtime App)
  : list (Channel * Signal.Callback) :=
  skipn (length (Signal.calls r)) (Signal.calls r').

Definition invocations (c : Channel) (f : Signal.Callback)
    (l : list (Channel * Signal.Callback)) : nat :=
  length (List.filter (fun x => bool_decide (x = (c, f))) l).

End BusViews.

(** A subscriber population for the examples: the function 0 throws,
    every other function counts its call in the application state. *)
Definition faulty (c : Channel) (f : Signal.Callback)
    (event : Signal.Event (any := literal) c) : Eff nat unit :=
  fun a => if Nat.eqb f 0 then (Throw TypeError, a) else (Return tt, S a).

Definition bus (l : list Signal.Callback) : Signal.Runtime nat :=
  {| Signal.statics :=
       {| Signal.OnAddonReady_subscribers := [];
          Signal.OnCustomSignalEmitted_subscribers := l;
          Signal.OnSettingsChanged_subscribers := [];
          Signal.OnExtensionTriggerd_subscribers := [] |};
     Signal.objects := 4; Signal.app := 0;
     Signal.errors := []; Signal.calls := [] |}.

Definition ping : OnCustomSignalEmittedEvent literal :=
  {| addonId := "me_pack"; emitterId := "ping"; data := None |}.

Arguments thrown {any App} run c event set a.
Arguments left_by {any App} run c event set a.
Arguments left_by_call {any App} run c event f a.
Arguments calls_since {App} r r'.

(** ** class AcmLibrary: the singleton [AcmLib] and the host events *)

(** [s.toLowerCase()] on ASCII text: the letters A-Z are mapped, every
    other character is kept (see [toUpperCase]). *)
Definition lower (a : ascii) : ascii :=
  let n := nat_of_ascii a in
  if (65 <=? n)%nat && (n <=? 90)%nat then ascii_of_nat (n + 32) else a.

Fixpoint toLowerCase (s : string) : string :=
  match s with
  | EmptyString => EmptyString
  | String a s' => String (lower a) (toLowerCase s')
  end.

(** [s.split(".")]: the texts between the dots; never empty. *)
Fixpoint split_dot (s : string) : list string :=
  match s with
  | EmptyString => [EmptyString]
  | String a s' =>
      if Ascii.eqb a "."%char then EmptyString :: split_dot s'
      else match split_dot s' with
           | first :: rest => String a first :: rest
           | [] => [String a EmptyString]
           end
  end.

(** A plain [Error(message)] of the library that has no constructor of
    its own in [Error]: "Addon already initialized", "addon data is
    undefined.", "Log database not found". *)
Definition Error_message (message : string) : Error := HostError message.

(** The event the host hands to a [scriptEventReceive] listener. *)
Record ScriptEventCommandMessageAfterEvent : Type := {
  event_id : string;
  message : string
}.

(** The state of the process: the world of the file system, the signal
    bus, the private fields of [AcmLib] and the script events sent with
    [system.sendScriptEvent], oldest first. *)
Record Process (App : Type) : Type := {
  world : World;
  signals : Signal.Runtime App;
  responseAdress : option string;
  hasExtensions : bool;
  sent : list (string * string)
}.
Arguments world {App} p.
Arguments signals {App} p.
Arguments responseAdress {App} p.
Arguments hasExtensions {App} p.
Arguments sent {App} p.

Module AcmLib.

Section Facade.
Context {any : Type} `{Json any}.
(** Whether a value counts as true in a condition. *)
Variable truthy : any -> bool.
(** [JSON.stringify(addonData)] *)
Variable stringify_addon : AddonData -> string.
(** [JSON.parse(message) as { playerId, extensionId }], on the messages
    of that shape. *)
Variable parse_trigger : string -> option (string * string).
(** [world.getEntity(id) as Player | undefined] *)
Variable getEntity : string -> option Player.
Variable App : Type.
Variable run : forall c : Channel,
    Signal.Callback -> Signal.Event (any := any) c -> Eff App unit.

Abbreviation M := (Eff (Process App)).

(** A call that acts on the world, and one that acts on the bus. *)
Definition in_world {A} (m : Eff World A) : M A :=
  fun p =>
    let '(r, w) := m (world p) in
    (r, {| world := w; signals := signals p; responseAdress := responseAdress p;
           hasExtensions := hasExtensions p; sent := sent p |}).

Definition on_bus {A} (m : Eff (Signal.Runtime App) A) : M A :=
  fun p =>
    let '(r, b) := m (signals p) in
    (r, {| world := world p; signals := b; responseAdress := responseAdress p;
           hasExtensions := hasExtensions p; sent := sent p |}).

(** [system.sendScriptEvent(id, message)] *)
Definition sendScriptEvent (id message : string) : M unit :=
  fun p =>
    (Return tt,
     {| world := world p; signals := signals p; responseAdress := responseAdress p;
        hasExtensions := hasExtensions p;
        sent := sent p ++ [(id, message)] |}).

Definition get_fields : M (option string * bool) :=
  fun p => (Return (responseAdress p, hasExtensions p), p).

Definition initAddon (addonData : AddonData) : M unit :=
  fun p =>
    match AcmLib_addonData (world p) with
    | Some _ => (Throw (Error_message "Addon already initialized"), p)
    | None =>
        (Return tt,
         {| world := {| scoreboard := scoreboard (world p);
                        AcmLib_addonData := Some addonData;
                        warnings := warnings (world p) |};
            signals := signals p;
            responseAdress :=
              Some (author (description addonData) +:+ "_" +:+
                    packId (description addonData));
            hasExtensions :=
              match extensions addonData with
              | Some _ => true
              | None => hasExtensions p
              end;
            sent := sent p |})
    end.

(** A call on the objective object found under [objectiveId]: the
    object belongs to the scoreboard, which sees the change. *)
Definition on_objective {A} (objectiveId : string) (db : ScoreboardObjective)
    (m : Eff ScoreboardObjective A) : Eff World A :=
  fun w =>
    let '(r, db') := m db in
    (r, with_scoreboard w (<[objectiveId := db']> (scoreboard w))).


(** [emit(eventId, data)]: the address is upper-cased as a whole; a
    missing or false-like [data] is sent as the word void. *)
Definition emit (eventId : string) (data : option any) : M unit :=
  addonData ← in_world get_addonData;
  let eventKey :=
    "acm:signal." +:+
    match addonData with
    | Some a => author (description a) +:+ "_" +:+ packId (description a)
    | None => "undefined_undefined"
    end +:+ "." +:+ eventId in
  let dataKey :=
    match data with
    | Some d => if truthy d then JSON_stringify d else "void"
    | None => "void"
    end in
  sendScriptEvent (toUpperCase eventKey) dataKey.

Definition onWorldReady : M unit :=
  addonData ← in_world get_addonData;
  match addonData with
  | None => throw (Error_message "addon data is undefined.")
  | Some addonData =>
      _ ← sendScriptEvent "acm:addon_ready" (stringify_addon addonData);
      on_bus (Signal.emit run OnAddonReady {| addonData := addonData |})
  end.

Definition extensionListener (event : ScriptEventCommandMessageAfterEvent)
  : M unit :=
  if String.eqb (event_id event) "acm:engine_ready" then onWorldReady
  else if startsWith (event_id event) "ACM:SIGNAL." then
    match split_dot (event_id event) with
    | _ :: a :: e :: _ =>
        if String.eqb (message event) "void" then
          on_bus (Signal.emit run OnCustomSignalEmitted
                    {| addonId := toLowerCase a; emitterId := toLowerCase e;
                       data := None |})
        else
          match JSON_parse (message event) with
          | None => throw (SyntaxError (message event))
          | Some d =>
              on_bus (Signal.emit run OnCustomSignalEmitted
                        {| addonId := toLowerCase a; emitterId := toLowerCase e;
                           data := Some d |})
          end
    | _ => throw TypeError
    end
  else
    addonData ← in_world get_addonData;
    match addonData with
    | None => throw (Error_message "addon data is undefined.")
    | Some addonData =>
        '(responseAdress, hasExtensions) ← get_fields;
        match responseAdress, extensions addonData with
        | Some (String c r), Some extensions =>
            if negb hasExtensions
               || String.eqb (message event) ""
               || negb (String.eqb (event_id event)
                                   ("acm:ext_" +:+ String c r))
            then mret tt
            else
              match parse_trigger (message event) with
              | None => throw (SyntaxError (message event))
              | Some (playerId, extensionId) =>
                  if negb (existsb (fun extension =>
                                      includes (extension_id extension) extensionId)
                                   extensions)
                  then mret tt
                  else
                    match getEntity playerId with
                    | None => mret tt
                    | Some player =>
                        on_bus (Signal.emit run OnExtensionTriggerd
                                  {| extensionId := extensionId;
                                     player := player |})
                    end
              end
        | _, _ => mret tt
        end
    end.

End Facade.

End AcmLib.


(** ** More views of the settings loader *)

(** What the category loader answers for [category] in a world where
    the addon [a] is initialized, and the object [forEach] builds from
    these answers, starting from [settingsObject]. *)
Definition category_object (parse : string -> option (list SettingsWidget))
    (w : World) (a : AddonData) (category : SettingsCatagory)
  : result (gmap string Value) :=
  match scoreboard w !! settings_ledger a (Some (title category)) with
  | None => Return ∅
  | Some db => blob_of parse db
  end.

Fixpoint each_category (parse : string -> option (list SettingsWidget))
    (w : World) (a : AddonData) (categories : list SettingsCatagory)
    (settingsObject : gmap string Value) : result (gmap string Value) :=
  match categories with
  | [] => Return settingsObject
  | category :: rest =>
      match category_object parse w a category with
      | Return categoryObject =>
          each_category parse w a rest
            (set_property settingsObject (title category)
                          (VObject categoryObject))
      | Throw e => Throw e
      end
  end.

(** An addon with two settings categories, one of them titled
    [__proto__], for the examples. *)
Definition proto_categories : AddonData :=
  {| formatVersion := "1.0.0";
     description := {| version := "1.0.0"; author := "me"; packId := "pack";
                       dependencies := None |};
     iconPath := None; guideKeys := None; extensions := None;
     settings := Some (inr [ {| title := "Audio"; settings_of := [];
                                category_iconPath := None |};
                             {| title := "__proto__"; settings_of := [];
                                category_iconPath := None |} ]) |}.

(** ** More examples *)

(** A process where [initAddon] has not been called, and a second
    addon, whose identifier E_PACK occurs in ME_PACK. *)
Definition blank_world : World :=
  {| scoreboard := ∅; AcmLib_addonData := None; warnings := [] |}.

Definition e_pack : AddonData :=
  {| formatVersion := "1.0.0";
     description := {| version := "1.0.0"; author := "e"; packId := "pack";
                       dependencies := None |};
     iconPath := None; guideKeys := None; extensions := None;
     settings := None |}.

(** A method call on the Directory [dir] in the world: the method runs
    on the objective the Directory refers to, which the scoreboard
    shares; the host refuses a call on an objective that was removed. *)
Definition through {A} (dir : Directory.t) (m : Eff ScoreboardObjective A)
  : Eff World A :=
  fun w =>
    match scoreboard w !! Directory.objective dir with
    | Some db => AcmLib.on_objective (Directory.objective dir) db m w
    | None => (Throw (HostError "objective is not valid"), w)
    end.

(** Stand-ins for the host functions in the examples of the host
    events: which literal counts as true, a text for the addon data,
    the trigger message [{"playerId":"p1","extensionId":"menu"}] with
    a parser that knows it, and a world with the single player p1. *)
Definition literal_truthy (v : literal) : bool :=
  match v with
  | JTrue => true
  | _ => false
  end.

Definition addon_text (a : AddonData) : string :=
  "{addon " +:+ localId_of a +:+ "}".

Definition menu_trigger : string :=
  "{" +:+ dq +:+ "playerId" +:+ dq +:+ ":" +:+ dq +:+ "p1" +:+ dq +:+ "," +:+
  dq +:+ "extensionId" +:+ dq +:+ ":" +:+ dq +:+ "menu" +:+ dq +:+ "}".

Definition parse_known_trigger (text : string) : option (string * string) :=
  if String.eqb text menu_trigger then Some ("p1", "menu") else None.

Definition known_entity (entityId : string) : option Player :=
  if String.eqb entityId "p1" then Some "p1" else None.

(** An addon that lists one extension, and a process that has not
    called [initAddon], with the subscribers [l] on the custom-signal
    channel. *)
Definition with_menu : AddonData :=
  {| formatVersion := "1.0.0";
     description := {| version := "1.0.0"; author := "me"; packId := "pack";
                       dependencies := None |};
     iconPath := None; guideKeys := None;
     extensions := Some [ {| extension_id := "main_menu";
                             extension_iconPath := None |} ];
     settings := None |}.

Definition process_of (w : World) (l : list Signal.Callback) : Process nat :=
  {| world := w; signals := bus l; responseAdress := None;
     hasExtensions := false; sent := [] |}.

(** * Properties *)

Ltac unfold_eff :=
  unfold mbind, mret, Eff_bind, Eff_ret, bind, ret, throw, async, try_catch in *.

(** ** Strings *)

Lemma append_nil (s : string) : "" +:+ s = s.
Proof. reflexivity. Qed.

Lemma append_cons (a : ascii) (s t : string) :
  String a s +:+ t = String a (s +:+ t).
Proof. reflexivity. Qed.

Lemma append_assoc (a b c : string) : (a +:+ b) +:+ c = a +:+ (b +:+ c).
Proof.
  induction a as [|x a IH]; [reflexivity|].
  now rewrite !append_cons, IH.
Qed.

Lemma startsWith_app (p s : string) : startsWith (p +:+ s) p = true.
Proof.
  induction p as [|a p IH]; [reflexivity|].
  rewrite append_cons. simpl. now rewrite Ascii.eqb_refl.
Qed.

Lemma startsWith_inv (s p : string) :
  startsWith s p = true -> exists t, s = p +:+ t.
Proof.
  revert s; induction p as [|a p IH]; intros s Hs.
  - now exists s.
  - destruct s as [|b s]; [discriminate|]. simpl in Hs.
    apply andb_true_iff in Hs as [Hab Hs].
    apply Ascii.eqb_eq in Hab as ->.
    destruct (IH _ Hs) as [t ->]. now exists t.
Qed.

Lemma startsWith_trans (s p q : string) :
  startsWith s p = true -> startsWith p q = true -> startsWith s q = true.
Proof.
  intros [t ->]%startsWith_inv [u ->]%startsWith_inv.
  rewrite append_assoc. apply startsWith_app.
Qed.

(** Two prefixes of one string are comparable. *)
Lemma startsWith_comparable (a x b : string) :
  startsWith (a +:+ x) b = true ->
  startsWith a b = true \/ startsWith b a = true.
Proof.
  revert b; induction a as [|c a IH]; intros b Hb.
  - right. now destruct b.
  - destruct b as [|c' b]; [now left|].
    rewrite append_cons in Hb. simpl in *.
    apply andb_true_iff in Hb as [Hc Hb].
    apply Ascii.eqb_eq in Hc as ->.
    rewrite Ascii.eqb_refl. simpl. now apply IH.
Qed.

Lemma startsWith_snoc (a b : string) (c : ascii) :
  startsWith (a +:+ String c "") b = true ->
  startsWith a b = true \/ b = a +:+ String c "".
Proof.
  revert b; induction a as [|c' a IH]; intros b Hb.
  - rewrite append_nil in *.
    destruct b as [|c1 b]; [now left|]. simpl in Hb.
    apply andb_true_iff in Hb as [Hc Hb].
    apply Ascii.eqb_eq in Hc as ->.
    destruct b; [now right|discriminate].
  - destruct b as [|c1 b]; [now left|].
    rewrite append_cons in *. simpl in *.
    apply andb_true_iff in Hb as [Hc Hb].
    apply Ascii.eqb_eq in Hc as ->.
    rewrite Ascii.eqb_refl. simpl.
    destruct (IH _ Hb) as [?| ->]; [now left|now right].
Qed.

Lemma slice_app (p s : string) : slice (String.length p) (p +:+ s) = s.
Proof.
  induction p as [|a p IH]; [now destruct s|].
  rewrite append_cons. exact IH.
Qed.

Lemma replace_unfold (s pattern replacement : string) :
  replace s pattern replacement =
  if startsWith s pattern
  then replacement +:+ slice (String.length pattern) s
  else match s with
       | EmptyString => EmptyString
       | String a s' => String a (replace s' pattern replacement)
       end.
Proof. destruct s; reflexivity. Qed.

(** Stripping ["f:"] off the label ["f:text"] leaves [text]. *)
Lemma replace_key (fileName text : string) :
  replace (fileName +:+ ":" +:+ text) (fileName +:+ ":") "" = text.
Proof.
  rewrite <- append_assoc.
  rewrite replace_unfold, startsWith_app, append_nil. apply slice_app.
Qed.

(** ** Ledgers *)

Lemma participants_with_scores (o : ScoreboardObjective) (l : list (string * Z)) :
  participants (with_scores o l) = map fst l.
Proof. reflexivity. Qed.

Lemma set_entry_new (l : list (string * Z)) (k : string) (v : Z) :
  ~ In k (map fst l) -> map fst (set_entry l k v) = (map fst l ++ [k])%list.
Proof.
  induction l as [|[p w] l IH]; intros Hk; [reflexivity|].
  simpl in *. destruct (String.eqb p k) eqn:E.
  - apply String.eqb_eq in E. tauto.
  - simpl. f_equal. apply IH. tauto.
Qed.

Lemma remove_participants (l : list (string * Z)) (i : string) :
  map fst (List.filter (fun e => negb (String.eqb (fst e) i)) l) =
  List.filter (fun p => negb (String.eqb p i)) (map fst l).
Proof.
  induction l as [|[p w] l IH]; [reflexivity|].
  simpl. destruct (String.eqb p i); simpl; now rewrite IH.
Qed.

Lemma find_snoc {A} (P : A -> bool) (l : list A) (k : A) :
  List.find P l = None ->
  List.find P (l ++ [k])%list = if P k then Some k else None.
Proof.
  induction l as [|x l IH]; simpl; [reflexivity|].
  destruct (P x); [discriminate|exact IH].
Qed.

Lemma find_app_some {A} (P : A -> bool) (l l' : list A) (x : A) :
  List.find P l = Some x -> List.find P (l ++ l')%list = Some x.
Proof.
  induction l as [|y l IH]; simpl; [discriminate|].
  now destruct (P y).
Qed.

Lemma find_none_iff {A} (P : A -> bool) (l : list A) :
  List.find P l = None <-> forall x, In x l -> P x = false.
Proof.
  split; [apply find_none|].
  induction l as [|x l IH]; intros Hl; [reflexivity|]. simpl.
  rewrite (Hl x) by now left. apply IH. intros y Hy. apply Hl. now right.
Qed.

(** The first match of a filter with one element is that element. *)
Lemma find_single {A} (P : A -> bool) (l : list A) (p : A) :
  List.filter P l = [p] -> List.find P l = Some p.
Proof.
  induction l as [|x l IH]; simpl; [discriminate|].
  destruct (P x); [now intros [= ->]|exact IH].
Qed.

(** ** Directory: what each method computes *)

Section DirectoryFacts.
Context {any : Type} `{Json any}.
Implicit Types (d : Directory.t) (o : ScoreboardObjective).
Implicit Types (f g : string) (c : any).

Lemma has_true f o : has f o = true <-> exists i, entry f o = Some i.
Proof.
  unfold has. rewrite bool_decide_eq_true.
  destruct (entry f o); split; try congruence; eauto.
  intros [i Hi]; discriminate.
Qed.

Lemma has_false f o : has f o = false <-> entry f o = None.
Proof.
  unfold has. rewrite bool_decide_eq_false.
  destruct (entry f o); split; try congruence; intros Hn.
  now destruct Hn.
Qed.

Lemma exists_run f o : Directory.exists_ f o = (Return (has f o), o).
Proof. reflexivity. Qed.

Lemma read_run f o :
  Directory.read f o =
  (match entry f o with
   | None => Throw (NotFound f)
   | Some i =>
       match JSON_parse (replace i (f +:+ ":") "") with
       | Some c => Return c
       | None => Throw (SyntaxError (replace i (f +:+ ":") ""))
       end
   end, o).
Proof.
  unfold Directory.read, Directory.exists_, Directory.getKeyData,
    Directory.getKeyIdentity, getParticipants.
  unfold_eff. unfold entry.
  destruct (List.find _ _) as [i|] eqn:E; simpl; rewrite ?E; [|reflexivity].
  now destruct (JSON_parse _).
Qed.

Lemma write_run d f c (allowOverwrite : bool) o :
  owned d ->
  Directory.write d f c allowOverwrite o =
  if has f o && negb allowOverwrite
  then (Return (Rejected (AlreadyExists f)), o)
  else (Return (Fulfilled tt),
        with_scores o (set_entry (scores o) (f +:+ ":" +:+ JSON_stringify c)
                                 (Z.of_nat (length (participants o))))).
Proof.
  intros Hd. unfold Directory.write, Directory.isOwner. unfold_eff.
  rewrite exists_run, Hd. now destruct (has f o && negb allowOverwrite).
Qed.

Lemma delete_run d f o :
  owned d ->
  Directory.delete d f o =
  match entry f o with
  | None => (Throw (NotFound f), o)
  | Some i =>
      (Return tt,
       with_scores o
         (List.filter (fun e => negb (String.eqb (fst e) i)) (scores o)))
  end.
Proof.
  intros Hd.
  unfold Directory.delete, Directory.isOwner, Directory.exists_,
    Directory.getKeyIdentity, getParticipants, removeParticipant.
  unfold_eff. unfold entry. rewrite Hd.
  destruct (List.find _ _) eqn:E; simpl; now rewrite ?E.
Qed.

End DirectoryFacts.

(** ** Directory: mutation by a non-owner *)

Section NotOwner.
Context {any : Type} `{Json any}.

(** C1 (as amended).  On a directory whose [localId] is not a
    substring of its [dbId], write, delete, rename and copy leave the
    ledger as it is, and none of them ends silently: delete, rename
    and copy throw, the file checks first (NotFound, AlreadyExists)
    and the ownership error of [isOwner] otherwise; write returns a
    promise rejected with AlreadyExists or with that ownership error. *)
Theorem not_owner_is_refused (d : Directory.t) (o : ScoreboardObjective)
    (f g : string) (c : any) (allowOverwrite : bool) :
  includes (Directory.dbId d) (Directory.localId d) = false ->
  Directory.write d f c allowOverwrite o =
    (Return (Rejected (if has f o && negb allowOverwrite
                       then AlreadyExists f else denied d)), o) /\
  Directory.delete d f o =
    (Throw (if has f o then denied d else NotFound f), o) /\
  Directory.rename d f g o =
    (Throw (if negb (has f o) then NotFound f
            else if has g o then AlreadyExists g else denied d), o) /\
  Directory.copy d f g o =
    (Throw (if negb (has f o) then NotFound f
            else if has g o then AlreadyExists g else denied d), o).
Proof.
  intros Hd.
  destruct (has f o) eqn:Ef, (has g o) eqn:Eg, allowOverwrite;
    unfold has, entry in Ef, Eg;
    unfold Directory.write, Directory.delete, Directory.rename,
      Directory.copy, Directory.isOwner, Directory.exists_,
      Directory.getKeyIdentity, getParticipants, denied;
    unfold_eff;
    do 3 (simpl; rewrite ?Ef, ?Eg, ?Hd); auto.
Qed.

End NotOwner.

(** C1, witness: the four calls on the directory [foreign]. *)
Lemma not_owner_is_refused_witness :
  let o := ledger "ACM:FS.OTHER_PACK.LOGS" [("a:true", 0%Z)] in
  Directory.write foreign "a" JFalse true o = (Return (Rejected (denied foreign)), o) /\
  Directory.delete foreign "a" o = (Throw (denied foreign), o) /\
  Directory.rename foreign "a" "b" o = (Throw (denied foreign), o) /\
  Directory.copy foreign "a" "b" o = (Throw (denied foreign), o).
Proof.
  exact (not_owner_is_refused foreign
           (ledger "ACM:FS.OTHER_PACK.LOGS" [("a:true", 0%Z)])
           "a" "b" JFalse true eq_refl).
Defined.

(** C1, counterexample: delete on a directory that is not owned does
    not return; it throws the ownership error. *)
Lemma not_owner_delete_throws :
  let o := ledger "ACM:FS.OTHER_PACK.LOGS" [("a:true", 0%Z)] in
  includes (Directory.dbId foreign) (Directory.localId foreign) = false /\
  Directory.delete foreign "a" o =
    (Throw (NotOwner "ACM:FS.OTHER_PACK.LOGS" "ME_PACK"), o) /\
  ~ exists r, Directory.delete foreign "a" o = (Return r, o).
Proof.
  repeat split. intros [r Hr]. discriminate Hr.
Qed.

(** ** Directory: write, read, delete and rename by the owner *)

Section Owner.
Context {any : Type} `{Json any}.
Implicit Types (d : Directory.t) (o : ScoreboardObjective).
Implicit Types (f g p : string) (c : any).

(** The label written for [f] stands for [f]. *)
Lemma key_starts f (text : string) :
  startsWith (f +:+ ":" +:+ text) (f +:+ ":") = true.
Proof. rewrite <- append_assoc. apply startsWith_app. Qed.

(** A ledger with no entry for [f] does not hold the label written
    for [f]. *)
Lemma key_fresh f (text : string) o :
  entry f o = None -> ~ In (f +:+ ":" +:+ text) (participants o).
Proof.
  intros Hn Hin. apply find_none with (x := f +:+ ":" +:+ text) in Hn; auto.
  now rewrite key_starts in Hn.
Qed.

(** Writing a file that has no entry adds its label after the others. *)
Lemma write_fresh d f c (allowOverwrite : bool) o :
  owned d -> entry f o = None ->
  exists o',
    Directory.write d f c allowOverwrite o = (Return (Fulfilled tt), o') /\
    participants o' =
      (participants o ++ [f +:+ ":" +:+ JSON_stringify c])%list.
Proof.
  intros Hd Hn. rewrite (write_run d f c allowOverwrite o Hd).
  apply has_false in Hn as Hf. rewrite Hf. simpl.
  eexists; split; [reflexivity|].
  rewrite participants_with_scores. apply set_entry_new.
  now apply key_fresh.
Qed.

(** Reading where the only entry for [f] is the last one. *)
Lemma read_last f c o (rest : list string) :
  participants o = (rest ++ [f +:+ ":" +:+ JSON_stringify c])%list ->
  List.find (fun p => startsWith p (f +:+ ":")) rest = None ->
  serializable c ->
  has f o = true /\ Directory.read f o = (Return c, o).
Proof.
  intros Hp Hrest Hc.
  assert (He : entry f o = Some (f +:+ ":" +:+ JSON_stringify c)).
  { unfold entry. rewrite Hp, (find_snoc _ _ _ Hrest). now rewrite key_starts. }
  split; [apply has_true; eauto|].
  rewrite read_run, He, replace_key. now rewrite Hc.
Qed.

(** C3 (as amended).  In a directory it owns, for a file name [f]
    that has no entry yet (no label starts with ["f:"]) and a
    serializable content [c], write(f,c) succeeds and read(f) then
    returns [c]. *)
Theorem write_then_read d o f c (allowOverwrite : bool) :
  owned d -> has f o = false -> serializable c ->
  exists o',
    Directory.write d f c allowOverwrite o = (Return (Fulfilled tt), o') /\
    Directory.read f o' = (Return c, o').
Proof.
  intros Hd Hf Hc. apply has_false in Hf.
  destruct (write_fresh d f c allowOverwrite o Hd Hf) as (o' & Hw & Hp).
  exists o'. split; [exact Hw|].
  now apply (read_last f c o' (participants o)).
Qed.

(** Removing the only entry for [f] leaves none. *)
Lemma matching_removed f p o :
  matching f o = [p] ->
  List.find (fun q => startsWith q (f +:+ ":"))
            (List.filter (fun q => negb (String.eqb q p)) (participants o))
  = None.
Proof.
  intros Hm. apply find_none_iff. intros q [Hq Hne]%filter_In.
  destruct (startsWith q (f +:+ ":")) eqn:E; [|reflexivity].
  assert (Hin : In q (matching f o)) by (apply filter_In; auto).
  rewrite Hm in Hin. destruct Hin as [<-|[]].
  now rewrite String.eqb_refl in Hne.
Qed.

(** Deleting a file with a single entry. *)
Lemma delete_single d f p o :
  owned d -> matching f o = [p] ->
  exists o',
    Directory.delete d f o = (Return tt, o') /\
    participants o' =
      List.filter (fun q => negb (String.eqb q p)) (participants o) /\
    entry f o' = None.
Proof.
  intros Hd Hm. rewrite (delete_run d f o Hd).
  unfold entry at 1. rewrite (find_single _ _ _ Hm).
  eexists; split; [reflexivity|].
  assert (Hp : forall l, participants (with_scores o
              (List.filter (fun e => negb (String.eqb (fst e) p)) l)) =
            List.filter (fun q => negb (String.eqb q p)) (map fst l)).
  { intros l. rewrite participants_with_scores. apply remove_participants. }
  split; [apply Hp|].
  unfold entry. rewrite Hp. now apply matching_removed.
Qed.

(** C4 (as amended).  In a directory it owns, delete(f) fails with
    NotFound when no entry stands for [f]; when exactly one entry
    stands for [f] (one label starts with ["f:"]), delete(f) succeeds
    and afterwards exists(f) is false and read(f) fails with
    NotFound. *)
Theorem delete_then_absent d o f :
  owned d ->
  (has f o = false -> Directory.delete d f o = (Throw (NotFound f), o)) /\
  (forall p, matching f o = [p] ->
     exists o',
       Directory.delete d f o = (Return tt, o') /\
       Directory.exists_ f o' = (Return false, o') /\
       Directory.read f o' = (Throw (NotFound f), o')).
Proof.
  intros Hd. split.
  - intros Hf%has_false. now rewrite (delete_run d f o Hd), Hf.
  - intros p Hm.
    destruct (delete_single d f p o Hd Hm) as (o' & Hdel & _ & Hn).
    exists o'. split; [exact Hdel|]. split.
    + apply has_false in Hn as Hh. now rewrite exists_run, Hh.
    + now rewrite read_run, Hn.
Qed.

End Owner.

Section Rename.
Context {any : Type} `{Json any}.
Implicit Types (d : Directory.t) (o : ScoreboardObjective).
Implicit Types (f g p : string) (c : any).

(** An [async] method hands every outcome to its promise. *)
Lemma write_returns d f c (allowOverwrite : bool) o :
  exists promise o',
    Directory.write d f c allowOverwrite o = (Return promise, o').
Proof.
  unfold Directory.write, async.
  match goal with |- context [match ?m o with _ => _ end] =>
    destruct (m o) as [[[]|e] o'] end; eauto.
Qed.

Lemma rename_run d (old new : string) o :
  owned d ->
  Directory.rename d old new o =
  if negb (has old o) then (Throw (NotFound old), o) else
  if has new o then (Throw (AlreadyExists new), o) else
  match entry old o with
  | None => (Throw (NotFound old), o)
  | Some i =>
      match JSON_parse (replace i (old +:+ ":") "") with
      | None => (Throw (SyntaxError (replace i (old +:+ ":") "")), o)
      | Some content =>
          match Directory.delete d old o with
          | (Return _, o1) =>
              (Return tt, snd (Directory.write d new content true o1))
          | (Throw e, o1) => (Throw e, o1)
          end
      end
  end.
Proof.
  intros Hd.
  unfold Directory.rename, Directory.isOwner, Directory.getKeyData.
  unfold mbind, mret, Eff_bind, Eff_ret, bind, ret, throw.
  rewrite exists_run. cbv beta iota.
  destruct (has old o); cbv beta iota delta [negb]; [|reflexivity].
  rewrite exists_run. cbv beta iota.
  destruct (has new o); [reflexivity|].
  cbv beta iota. rewrite Hd. cbv beta iota delta [negb].
  change (Directory.getKeyIdentity old o) with (Return (entry old o), o).
  cbv beta iota.
  destruct (entry old o) as [i|]; [|reflexivity].
  destruct (JSON_parse _) as [content|]; [|reflexivity]. cbv beta iota.
  destruct (Directory.delete d old o) as [[[]|e] o1]; [|reflexivity].
  cbv beta iota.
  destruct (write_returns d new content true o1) as (promise & o2 & ->).
  reflexivity.
Qed.

Lemma startsWith_refl (s : string) : startsWith s s = true.
Proof.
  induction s as [|a s IH]; [reflexivity|].
  simpl. now rewrite Ascii.eqb_refl.
Qed.

(** The label written for [new] does not stand for [old] when [new]
    does not start with ["old:"] and some label stands for [old] but
    not for [new]. *)
Lemma key_of_other (old new p text : string) :
  startsWith new (old +:+ ":") = false ->
  startsWith p (old +:+ ":") = true ->
  startsWith p (new +:+ ":") = false ->
  startsWith (new +:+ ":" +:+ text) (old +:+ ":") = false.
Proof.
  intros Hnew Hp Hpn.
  destruct (startsWith (new +:+ ":" +:+ text) (old +:+ ":")) eqn:E;
    [exfalso|reflexivity].
  assert (Hshort : startsWith (old +:+ ":") (new +:+ ":") = true -> False).
  { intros Hs. rewrite (startsWith_trans _ _ _ Hp Hs) in Hpn. discriminate. }
  rewrite <- append_assoc in E.
  apply startsWith_comparable in E as [E|E]; [|now apply Hshort].
  apply startsWith_snoc in E as [E|E]; [congruence|].
  apply Hshort. rewrite E. apply startsWith_refl.
Qed.

(** C5 (as amended).  In a directory it owns, rename(old,new) fails
    with NotFound when no entry stands for [old], and with
    AlreadyExists when [old] has an entry and [new] has one too.  When
    exactly one entry stands for [old], none stands for [new], the
    name [new] does not start with ["old:"], and read(old) returns a
    serializable content [c], the rename succeeds and afterwards
    exists(old) is false, exists(new) is true and read(new) returns
    [c]. *)
Theorem rename_moves_content d o (old new : string) :
  owned d ->
  (has old o = false ->
     Directory.rename d old new o = (Throw (NotFound old), o)) /\
  (has old o = true -> has new o = true ->
     Directory.rename d old new o = (Throw (AlreadyExists new), o)) /\
  (forall p c,
     matching old o = [p] -> has new o = false ->
     startsWith new (old +:+ ":") = false ->
     Directory.read old o = (Return c, o) -> serializable c ->
     exists o',
       Directory.rename d old new o = (Return tt, o') /\
       Directory.exists_ old o' = (Return false, o') /\
       Directory.exists_ new o' = (Return true, o') /\
       Directory.read new o' = (Return c, o')).
Proof.
  intros Hd. rewrite (rename_run d old new o Hd). repeat split.
  - now intros ->.
  - now intros -> ->.
  - intros p c Hm Hnew Hprefix Hread Hc.
    pose proof (find_single _ _ _ Hm) as Hp. fold (entry old o) in Hp.
    assert (Hold : has old o = true) by (apply has_true; eauto).
    rewrite Hold, Hnew, Hp. cbv beta iota delta [negb].
    rewrite read_run, Hp in Hread.
    destruct (JSON_parse (replace p (old +:+ ":") "")) as [c'|];
      [|discriminate].
    injection Hread as ->.
    destruct (delete_single d old p o Hd Hm) as (o1 & -> & Hp1 & Hold1).
    assert (Hnew1 : entry new o1 = None).
    { unfold entry. rewrite Hp1. apply find_none_iff.
      intros q [Hq _]%filter_In.
      apply has_false in Hnew. exact (find_none _ _ Hnew q Hq). }
    destruct (write_fresh d new c true o1 Hd Hnew1) as (o2 & -> & Hp2).
    exists o2. split; [reflexivity|].
    destruct (read_last new c o2 (participants o1) Hp2 Hnew1 Hc)
      as [Hhas Hrd].
    rewrite !exists_run, Hhas. repeat split; [|exact Hrd].
    f_equal. f_equal. apply has_false. unfold entry.
    rewrite Hp2, (find_snoc _ _ _ Hold1).
    apply find_some in Hp as [Hin Hpo].
    rewrite (key_of_other old new p); auto.
    apply has_false in Hnew. exact (find_none _ _ Hnew p Hin).
Qed.

End Rename.

(** ** Directory: overwriting *)

Section Overwrite.
Context {any : Type} `{Json any}.
Implicit Types (d : Directory.t) (o : ScoreboardObjective).
Implicit Types (f : string) (c : any).

(** A second write with [allowOverwrite = false] is rejected with
    AlreadyExists and the file keeps its content. *)
Lemma write_again_refused d o f c1 c2 :
  owned d -> has f o = false -> serializable c1 ->
  exists o1,
    Directory.write d f c1 true o = (Return (Fulfilled tt), o1) /\
    Directory.write d f c2 false o1 =
      (Return (Rejected (AlreadyExists f)), o1) /\
    Directory.read f o1 = (Return c1, o1).
Proof.
  intros Hd Hf Hc. apply has_false in Hf.
  destruct (write_fresh d f c1 true o Hd Hf) as (o1 & Hw & Hp).
  destruct (read_last f c1 o1 (participants o) Hp Hf Hc) as [Hhas Hrd].
  exists o1. repeat split; auto.
  now rewrite (write_run d f c2 false o1 Hd), Hhas.
Qed.

(** A second write with [allowOverwrite = true] and a content with
    another text adds a second entry after the first, which stays;
    read still returns the first content. *)
Lemma write_again_shadowed d o f c1 c2 :
  owned d -> has f o = false -> serializable c1 ->
  JSON_stringify c1 <> JSON_stringify c2 ->
  exists o1 o2,
    Directory.write d f c1 true o = (Return (Fulfilled tt), o1) /\
    Directory.write d f c2 true o1 = (Return (Fulfilled tt), o2) /\
    participants o2 =
      (participants o ++ [f +:+ ":" +:+ JSON_stringify c1;
                          f +:+ ":" +:+ JSON_stringify c2])%list /\
    Directory.read f o2 = (Return c1, o2).
Proof.
  intros Hd Hf Hc Hne. apply has_false in Hf.
  destruct (write_fresh d f c1 true o Hd Hf) as (o1 & Hw & Hp).
  exists o1. eexists. split; [exact Hw|].
  rewrite (write_run d f c2 true o1 Hd), andb_false_r.
  split; [reflexivity|].
  assert (Hp2 : participants (with_scores o1
            (set_entry (scores o1) (f +:+ ":" +:+ JSON_stringify c2)
                       (Z.of_nat (length (participants o1))))) =
          (participants o ++ [f +:+ ":" +:+ JSON_stringify c1;
                              f +:+ ":" +:+ JSON_stringify c2])%list).
  { rewrite participants_with_scores, set_entry_new.
    - fold (participants o1). rewrite Hp, <- app_assoc. reflexivity.
    - fold (participants o1). rewrite Hp.
      intros [Hin|[Heq|[]]]%in_app_or.
      + now apply (key_fresh f (JSON_stringify c2) o).
      + apply Hne. apply (String.app_inj (f +:+ ":")).
        now rewrite <- !append_assoc in Heq. }
  split; [exact Hp2|].
  rewrite read_run. unfold entry. rewrite Hp2.
  replace (participants o ++ [f +:+ ":" +:+ JSON_stringify c1;
                              f +:+ ":" +:+ JSON_stringify c2])%list
    with ((participants o ++ [f +:+ ":" +:+ JSON_stringify c1]) ++
          [f +:+ ":" +:+ JSON_stringify c2])%list
    by now rewrite <- app_assoc.
  rewrite (find_app_some _ _ _ (f +:+ ":" +:+ JSON_stringify c1)).
  - now rewrite replace_key, Hc.
  - now rewrite (find_snoc _ _ _ Hf), key_starts.
Qed.

End Overwrite.

(** C2, the failing run: in an empty directory of its owner,
    write("a", true) and then write("a", false) with overwriting
    allowed leave both entries in the ledger, and read("a") returns
    [true], the first content. *)
Theorem overwrite_keeps_first_content :
  and_then (Directory.write mine "a" JTrue true)
    (and_then (Directory.write mine "a" JFalse true) (Directory.read "a"))
    (ledger "ACM:FS.ME_PACK.LOGS" [])
  = (Return JTrue,
     ledger "ACM:FS.ME_PACK.LOGS" [("a:true", 0%Z); ("a:false", 1%Z)]).
Proof. reflexivity. Qed.

(** C3, witness: writing and reading ["a"] next to a file ["b"]. *)
Lemma write_then_read_witness :
  exists o',
    Directory.write mine "a" JTrue true
      (ledger "ACM:FS.ME_PACK.LOGS" [("b:null", 0%Z)])
      = (Return (Fulfilled tt), o') /\
    Directory.read "a" o' = (Return JTrue, o').
Proof.
  exact (write_then_read mine (ledger "ACM:FS.ME_PACK.LOGS" [("b:null", 0%Z)])
           "a" JTrue true eq_refl eq_refl eq_refl).
Defined.

(** C3, counterexample: the directory holds the file ["a:b"]; after
    write("a", false), read("a") finds the entry of ["a:b"] first and
    throws instead of returning [false]. *)
Lemma write_then_read_other_file :
  owned mine /\ serializable JFalse /\
  and_then (Directory.write mine "a" JFalse true) (Directory.read "a")
    (ledger "ACM:FS.ME_PACK.LOGS" [("a:b:true", 0%Z)])
  = (Throw (SyntaxError "b:true"),
     ledger "ACM:FS.ME_PACK.LOGS" [("a:b:true", 0%Z); ("a:false", 1%Z)]).
Proof. repeat split. Qed.

(** C4, witness: deleting a missing file and a file with one entry. *)
Lemma delete_then_absent_witness :
  let o := ledger "ACM:FS.ME_PACK.LOGS" [("a:true", 0%Z); ("b:null", 1%Z)] in
  Directory.delete mine "c" o = (Throw (NotFound "c"), o) /\
  exists o',
    Directory.delete mine "a" o = (Return tt, o') /\
    Directory.exists_ "a" o' = (Return false, o') /\
    Directory.read (any := literal) "a" o' = (Throw (NotFound "a"), o').
Proof.
  split.
  - exact (proj1 (delete_then_absent (any := literal) mine
                    (ledger "ACM:FS.ME_PACK.LOGS"
                            [("a:true", 0%Z); ("b:null", 1%Z)]) "c" eq_refl)
                 eq_refl).
  - exact (proj2 (delete_then_absent (any := literal) mine
                    (ledger "ACM:FS.ME_PACK.LOGS"
                            [("a:true", 0%Z); ("b:null", 1%Z)]) "a" eq_refl)
                 "a:true" eq_refl).
Defined.

(** C4, counterexample: with the files ["a:b"] and ["a"] in the
    directory, delete("a") succeeds (it removes the entry of ["a:b"])
    and exists("a") is still true. *)
Lemma delete_leaves_entry :
  let o := ledger "ACM:FS.ME_PACK.LOGS" [("a:b:true", 0%Z); ("a:false", 1%Z)] in
  let o' := ledger "ACM:FS.ME_PACK.LOGS" [("a:false", 1%Z)] in
  owned mine /\
  Directory.delete mine "a" o = (Return tt, o') /\
  Directory.exists_ "a" o' = (Return true, o') /\
  Directory.read "a" o' = (Return JFalse, o').
Proof. repeat split. Qed.

(** C5, witness: the three cases of rename. *)
Lemma rename_moves_content_witness :
  let o := ledger "ACM:FS.ME_PACK.LOGS" [("a:true", 0%Z); ("b:null", 1%Z)] in
  Directory.rename (any := literal) mine "c" "d" o = (Throw (NotFound "c"), o) /\
  Directory.rename (any := literal) mine "a" "b" o
    = (Throw (AlreadyExists "b"), o) /\
  exists o',
    Directory.rename (any := literal) mine "a" "c" o = (Return tt, o') /\
    Directory.exists_ "a" o' = (Return false, o') /\
    Directory.exists_ "c" o' = (Return true, o') /\
    Directory.read "c" o' = (Return JTrue, o').
Proof.
  pose (o := ledger "ACM:FS.ME_PACK.LOGS" [("a:true", 0%Z); ("b:null", 1%Z)]).
  split; [|split].
  - exact (proj1 (rename_moves_content mine o "c" "d" eq_refl) eq_refl).
  - exact (proj1 (proj2 (rename_moves_content mine o "a" "b" eq_refl))
                 eq_refl eq_refl).
  - exact (proj2 (proj2 (rename_moves_content mine o "a" "c" eq_refl))
                 "a:true" JTrue eq_refl eq_refl eq_refl eq_refl eq_refl).
Defined.

(** C5, counterexample: renaming ["a"] to ["a:b"] succeeds, and
    afterwards exists("a") is true, because the label of ["a:b"]
    starts with ["a:"]. *)
Lemma rename_old_still_exists :
  let o := ledger "ACM:FS.ME_PACK.LOGS" [("a:true", 0%Z)] in
  let o' := ledger "ACM:FS.ME_PACK.LOGS" [("a:b:true", 0%Z)] in
  owned mine /\
  Directory.exists_ "a" o = (Return true, o) /\
  Directory.exists_ "a:b" o = (Return false, o) /\
  Directory.rename (any := literal) mine "a" "a:b" o = (Return tt, o') /\
  Directory.exists_ "a" o' = (Return true, o').
Proof. repeat split. Qed.

(** ** The signal bus *)

Section SetFacts.
Import Signal.
Implicit Types (x f : Callback) (l : list Callback).

Lemma Set_add_In x l : In x (Set_add x l).
Proof.
  unfold Set_add. case_bool_decide as Hx.
  - now apply list_elem_of_In.
  - apply in_or_app. right. now left.
Qed.

Lemma Set_add_twice x l : Set_add x (Set_add x l) = Set_add x l.
Proof.
  unfold Set_add at 1. rewrite bool_decide_eq_true_2; [reflexivity|].
  apply list_elem_of_In, Set_add_In.
Qed.

Lemma Set_add_NoDup x l : NoDup l -> NoDup (Set_add x l).
Proof.
  intros Hl. unfold Set_add. case_bool_decide as Hx; [exact Hl|].
  apply NoDup_app. repeat split; auto.
  - intros y Hy ->%list_elem_of_singleton. now apply Hx.
  - apply NoDup_singleton.
Qed.

Lemma Set_delete_In x y l : In y (Set_delete x l) <-> In y l /\ y <> x.
Proof.
  unfold Set_delete. rewrite filter_In, negb_true_iff, Nat.eqb_neq.
  reflexivity.
Qed.

Lemma subscribers_set (c : Channel) l st :
  subscribers c (set_subscribers c l st) = l.
Proof. now destruct c. Qed.

Lemma subscribers_set_other (c c' : Channel) l st :
  c <> c' -> subscribers c' (set_subscribers c l st) = subscribers c' st.
Proof. destruct c, c'; intros Hc; reflexivity || now destruct Hc. Qed.

Lemma invocations_once (c : Channel) f l :
  NoDup l -> In f l -> invocations c f (map (pair c) l) = 1.
Proof.
  assert (Hnone : forall l', ~ In f l' ->
            invocations c f (map (pair c) l') = 0).
  { induction l' as [|y l' IH]; intros Hn; [reflexivity|].
    unfold invocations in *. simpl.
    rewrite bool_decide_eq_false_2.
    - apply IH. intros Hy. apply Hn. now right.
    - intros [= ->]. apply Hn. now left. }
  induction l as [|y l IH]; intros Hl Hf; [destruct Hf|].
  apply NoDup_cons in Hl as [Hy Hl]. rewrite list_elem_of_In in Hy.
  unfold invocations in *. simpl. case_bool_decide as E.
  - injection E as ->. simpl. f_equal. now apply Hnone.
  - apply IH; auto. destruct Hf as [->|Hf]; [now destruct E|exact Hf].
Qed.

Lemma invocations_never (c : Channel) f l :
  ~ In f l -> invocations c f (map (pair c) l) = 0.
Proof.
  induction l as [|y l IH]; intros Hn; [reflexivity|].
  unfold invocations in *. simpl.
  rewrite bool_decide_eq_false_2.
  - apply IH. intros Hy. apply Hn. now right.
  - intros [= ->]. apply Hn. now left.
Qed.

Lemma skipn_length_app {A} (l l' : list A) : skipn (length l) (l ++ l') = l'.
Proof. induction l as [|x l IH]; [reflexivity|exact IH]. Qed.

End SetFacts.

Section BusFacts.
Import Signal.
Context {any : Type}.
Variable App : Type.
Variable run : forall c : Channel,
    Callback -> Event (any := any) c -> Eff App unit.
Implicit Types (c : Channel) (f : Callback) (r : Runtime App).

(** One turn of the loop of [emit]: the call is recorded, a thrown
    error is caught and reported, and the turn ends normally. *)
Lemma deliver_one c (event : Event c) f r :
  try_catch (call run c f event) (console_error (report c)) r =
  (Return tt,
   {| statics := statics r; objects := objects r;
      app := snd (run c f event (app r));
      errors := (errors r ++
                 match fst (run c f event (app r)) with
                 | Return _ => []
                 | Throw e => [(report c, e)]
                 end)%list;
      calls := (calls r ++ [(c, f)])%list |}).
Proof.
  unfold try_catch, call, console_error.
  destruct (run c f event (app r)) as [[[]|e] a]; simpl;
    now rewrite ?app_nil_r.
Qed.

Lemma deliver_all c (event : Event c) (l : list Callback) r :
  exists r',
    for_of l (fun callback =>
                try_catch (call run c callback event)
                          (console_error (report c))) r
      = (Return tt, r') /\
    statics r' = statics r /\
    calls r' = (calls r ++ map (pair c) l)%list /\
    errors r' =
      (errors r ++ map (pair (report c))
                       (fst (thrown run c event l (app r))))%list /\
    app r' = snd (thrown run c event l (app r)).
Proof.
  revert r. induction l as [|f l IH]; intros r.
  - exists r. simpl. now rewrite !app_nil_r.
  - cbn [for_of thrown]. unfold mbind, Eff_bind, bind. rewrite deliver_one.
    match goal with |- context [for_of l _ ?s] =>
      destruct (IH s) as (r' & -> & Hs & Hc & He & Ha) end.
    exists r'. cbn [statics calls errors app] in *.
    rewrite Hs, Hc, He, Ha, <- !app_assoc.
    destruct (run c f event (app r)) as [[[]|e] a]; cbn [fst snd];
      destruct (thrown run c event l a); repeat split.
Qed.

(** What [emit] does: it returns, whatever the subscribers do; it
    calls every subscriber of the class once, in the order of the
    set; it reports each thrown error on the console; it leaves the
    sets as they are. *)
Lemma emit_run c (event : Event c) r :
  exists r',
    emit run c event r = (Return tt, r') /\
    statics r' = statics r /\
    calls r' = (calls r ++ map (pair c) (subscribers c (statics r)))%list /\
    errors r' =
      (errors r ++
       map (pair (report c))
           (fst (thrown run c event (subscribers c (statics r)) (app r))))%list /\
    app r' = snd (thrown run c event (subscribers c (statics r)) (app r)).
Proof. apply deliver_all. Qed.

(** The functions of a set are called in turn: the state left by a
    list is the state left by its parts, one after the other. *)
Lemma thrown_app c (event : Event c) (l1 l2 : list Callback) (a : App) :
  thrown run c event (l1 ++ l2)%list a =
  ((fst (thrown run c event l1 a) ++
    fst (thrown run c event l2 (snd (thrown run c event l1 a))))%list,
   snd (thrown run c event l2 (snd (thrown run c event l1 a)))).
Proof.
  revert a. induction l1 as [|f l1 IH]; intros a.
  - cbn [List.app thrown fst snd]. now destruct (thrown run c event l2 a).
  - cbn [List.app thrown].
    destruct (run c f event a) as [[[]|e] a']; rewrite IH.
    + reflexivity.
    + now destruct (thrown run c event l1 a').
Qed.

Lemma left_by_cons c (event : Event c) f (l : list Callback) (a : App) :
  left_by run c event (f :: l) a =
  left_by run c event l (left_by_call run c event f a).
Proof.
  unfold left_by, left_by_call. cbn [thrown].
  destruct (run c f event a) as [[[]|e] a']; cbn [snd]; [reflexivity|].
  now destruct (thrown run c event l a').
Qed.

Lemma left_by_split c (event : Event c) f (l1 l2 : list Callback) (a : App) :
  left_by run c event (l1 ++ f :: l2)%list a =
  left_by run c event l2
    (left_by_call run c event f (left_by run c event l1 a)).
Proof.
  unfold left_by at 1. rewrite thrown_app. cbn [snd].
  fold (left_by run c event l1 a).
  fold (left_by run c event (f :: l2) (left_by run c event l1 a)).
  apply left_by_cons.
Qed.

Lemma left_by_snoc c (event : Event c) f (l : list Callback) (a : App) :
  left_by run c event (l ++ [f])%list a =
  left_by_call run c event f (left_by run c event l a).
Proof. now rewrite left_by_split. Qed.

(** The state [emit] leaves to the application. *)
Lemma emit_app c (event : Event c) r r' :
  emit run c event r = (Return tt, r') ->
  app r' = left_by run c event (subscribers c (statics r)) (app r) /\
  errors r' =
    (errors r ++
     map (pair (report c))
         (fst (thrown run c event (subscribers c (statics r)) (app r))))%list.
Proof.
  destruct (emit_run c event r) as (r2 & -> & _ & _ & Herr & Happ).
  now intros [= <-].
Qed.

End BusFacts.

Lemma NoDup_split (f : Signal.Callback) (l : list Signal.Callback) :
  NoDup l -> In f l ->
  exists l1 l2, l = (l1 ++ f :: l2)%list /\ ~ In f l1 /\ ~ In f l2.
Proof.
  intros Hl Hf. destruct (in_split _ _ Hf) as (l1 & l2 & ->).
  exists l1, l2. split; [reflexivity|].
  apply NoDup_app in Hl as (_ & Hout & [Hf2 _]%NoDup_cons).
  rewrite list_elem_of_In in Hf2. split; [|exact Hf2].
  intros Hin. apply (Hout f); [now apply list_elem_of_In|].
  apply list_elem_of_In. now left.
Qed.

Section BusClaims.
Import Signal.
Context {any : Type}.
Variable App : Type.
Variable run : forall c : Channel,
    Callback -> Event (any := any) c -> Eff App unit.
Implicit Types (c : Channel) (f : Callback) (r : Runtime App).

Lemma set_subscribers_twice c (l : list Callback) st :
  set_subscribers c l (set_subscribers c l st) = set_subscribers c l st.
Proof. now destruct c. Qed.

(** C6.  On every channel, for a set without duplicates: subscribing
    a function, then subscribing it again, leaves the state of the
    first subscription (the second is a no-op); from then on every
    emit on the channel calls the function exactly once: the set
    lists it once, between the functions [l1] and [l2], and the emit
    leaves the application in the state made by the functions of [l1],
    then the one call of the function on the event, then the functions
    of [l2]; and after unsubscribing it, every emit calls it zero
    times: the state is the one made by the functions of the set, and
    the function is not among them. *)
Theorem subscribe_twice_delivers_once (this : Instance) f r :
  NoDup (subscribers (class this) (statics r)) ->
  exists r1,
    subscribe this f r = (Return f, r1) /\
    subscribe this f r1 = (Return f, r1) /\
    (forall ra (event : Event (class this)),
       statics ra = statics r1 ->
       exists rb,
         emit run (class this) event ra = (Return tt, rb) /\
         statics rb = statics ra /\
         invocations (class this) f (calls_since ra rb) = 1 /\
         exists l1 l2,
           subscribers (class this) (statics ra) = (l1 ++ f :: l2)%list /\
           ~ In f l1 /\ ~ In f l2 /\
           app rb =
             left_by run (class this) event l2
               (left_by_call run (class this) event f
                  (left_by run (class this) event l1 (app ra)))) /\
    exists r2,
      unsubscribe this f r1 = (Return tt, r2) /\
      forall ra (event : Event (class this)),
        statics ra = statics r2 ->
        exists rb,
          emit run (class this) event ra = (Return tt, rb) /\
          statics rb = statics ra /\
          invocations (class this) f (calls_since ra rb) = 0 /\
          ~ In f (subscribers (class this) (statics ra)) /\
          app rb =
            left_by run (class this) event
              (subscribers (class this) (statics ra)) (app ra).
Proof.
  intros Hnd. set (c := class this) in *.
  eexists. split; [reflexivity|]. split; [|split].
  - unfold subscribe, update_subscribers. unfold_eff. cbn [statics].
    fold c. now rewrite subscribers_set, Set_add_twice, set_subscribers_twice.
  - intros ra event Hst.
    destruct (emit_run App run c event ra) as (rb & He & Hs & Hc & _ & Ha).
    assert (Hset : subscribers c (statics ra) =
                   Set_add f (subscribers c (statics r))).
    { rewrite Hst. cbn [statics]. fold c. apply subscribers_set. }
    exists rb. split; [exact He|]. split; [exact Hs|]. split.
    + unfold calls_since. rewrite Hc, skipn_length_app, Hset.
      apply invocations_once; [now apply Set_add_NoDup|apply Set_add_In].
    + destruct (NoDup_split f (Set_add f (subscribers c (statics r)))
                  (Set_add_NoDup _ _ Hnd) (Set_add_In _ _))
        as (l1 & l2 & Hl & H1 & H2).
      exists l1, l2. rewrite Hset. split; [exact Hl|].
      split; [exact H1|]. split; [exact H2|].
      rewrite Ha, Hset, Hl. apply left_by_split.
  - eexists. split; [reflexivity|].
    intros ra event Hst.
    destruct (emit_run App run c event ra) as (rb & He & Hs & Hc & _ & Ha).
    assert (Hset : subscribers c (statics ra) =
                   Set_delete f (Set_add f (subscribers c (statics r)))).
    { rewrite Hst. cbn [statics]. fold c. now rewrite !subscribers_set. }
    assert (Hout : ~ In f (subscribers c (statics ra))).
    { rewrite Hset, Set_delete_In. tauto. }
    exists rb. split; [exact He|]. split; [exact Hs|]. split; [|split].
    + unfold calls_since. rewrite Hc, skipn_length_app.
      now apply invocations_never.
    + exact Hout.
    + exact Ha.
Qed.

(** C7.  On every channel, whatever the subscribers do when called
    (return or throw), emit returns normally, has called every
    subscriber of the set, in the order of the set, and has reported
    each thrown error on the console. *)
Theorem emit_survives_subscribers c (event : Event c) r :
  exists r',
    emit run c event r = (Return tt, r') /\
    calls_since r r' = map (pair c) (subscribers c (statics r)) /\
    errors r' =
      (errors r ++
       map (pair (report c))
           (fst (thrown run c event (subscribers c (statics r)) (app r))))%list.
Proof.
  destruct (emit_run App run c event r) as (r' & He & _ & Hc & Herr & _).
  exists r'. repeat split; auto.
  unfold calls_since. now rewrite Hc, skipn_length_app.
Qed.

(** C10.  For each of the four classes: two instances made one after
    the other are different objects, and subscribing or unsubscribing
    through one is the same as through the other; a function
    subscribed through the first is in the set of the class, is
    called by the emit of the class (the emit leaves the application
    in the state made by the functions listed before it, then its call
    on the event, then the functions listed after it), and is removed
    by unsubscribing through the second. *)
Theorem subscribers_belong_to_class c f r :
  exists i1 i2 ra rb,
    create c r = (Return i1, ra) /\ create c ra = (Return i2, rb) /\
    i1 <> i2 /\
    (forall s : Runtime App, subscribe i1 f s = subscribe i2 f s) /\
    (forall s : Runtime App, unsubscribe i1 f s = unsubscribe i2 f s) /\
    exists r1,
      subscribe i1 f rb = (Return f, r1) /\
      In f (subscribers c (statics r1)) /\
      (forall event : Event c,
         exists r2, emit run c event r1 = (Return tt, r2) /\
                    In (c, f) (calls_since r1 r2) /\
                    exists l1 l2,
                      subscribers c (statics r1) = (l1 ++ f :: l2)%list /\
                      app r2 =
                        left_by run c event l2
                          (left_by_call run c event f
                             (left_by run c event l1 (app r1)))) /\
      exists r3,
        unsubscribe i2 f r1 = (Return tt, r3) /\
        ~ In f (subscribers c (statics r3)).
Proof.
  do 4 eexists. split; [reflexivity|]. split; [reflexivity|].
  split; [intros [=]; cbn [objects] in *; lia|].
  split; [reflexivity|]. split; [reflexivity|].
  eexists. split; [reflexivity|]. cbn [statics class].
  rewrite subscribers_set. split; [apply Set_add_In|]. split.
  - intros event.
    match goal with |- context [emit run c event ?s] =>
      destruct (emit_run App run c event s) as (r2 & He & _ & Hc & _ & Ha) end.
    exists r2. split; [exact He|]. cbn [statics] in Hc, Ha.
    rewrite subscribers_set in Hc, Ha. split.
    + unfold calls_since. rewrite Hc, skipn_length_app.
      apply in_map, Set_add_In.
    + destruct (in_split _ _ (Set_add_In f (subscribers c (statics r))))
        as (l1 & l2 & Hl).
      exists l1, l2. split; [exact Hl|].
      rewrite Ha, Hl. apply left_by_split.
  - eexists. split; [reflexivity|]. cbn [statics class].
    rewrite !subscribers_set, Set_delete_In. tauto.
Qed.

(** The sets of the other classes are not touched. *)
Lemma classes_are_independent (this : Instance) c f r :
  class this <> c ->
  subscribers c (statics (snd (subscribe this f r))) = subscribers c (statics r) /\
  subscribers c (statics (snd (unsubscribe this f r))) = subscribers c (statics r).
Proof.
  intros Hc. split; cbn [subscribe unsubscribe update_subscribers snd statics];
    now apply subscribers_set_other.
Qed.

(** [Events.create()] makes one instance of each class and leaves the
    sets as they are. *)
Lemma Events_create_run r :
  exists events r',
    Events_create r = (Return events, r') /\
    class (Events_OnAddonReady events) = OnAddonReady /\
    class (Events_OnSettingsChanged events) = OnSettingsChanged /\
    class (Events_OnExtensionTriggerd events) = OnExtensionTriggerd /\
    class (Events_OnCustomSignalEmitted events) = OnCustomSignalEmitted /\
    statics r' = statics r.
Proof. do 2 eexists. repeat split. Qed.

End BusClaims.

(** C6, witness: the function 7 subscribed twice to the custom-signal
    channel next to the functions 3 and 5. *)
Lemma subscribe_twice_delivers_once_witness :
  let this := {| Signal.class := OnCustomSignalEmitted; Signal.object := 3 |} in
  exists r1,
    Signal.subscribe this 7 (bus [3; 5]) = (Return 7, r1) /\
    Signal.subscribe this 7 r1 = (Return 7, r1) /\
    (forall ra (event : Signal.Event (any := literal) OnCustomSignalEmitted),
       Signal.statics ra = Signal.statics r1 ->
       exists rb,
         Signal.emit faulty OnCustomSignalEmitted event ra = (Return tt, rb) /\
         Signal.statics rb = Signal.statics ra /\
         invocations OnCustomSignalEmitted 7 (calls_since ra rb) = 1 /\
         exists l1 l2,
           Signal.subscribers OnCustomSignalEmitted (Signal.statics ra) =
             (l1 ++ 7 :: l2)%list /\
           ~ In 7 l1 /\ ~ In 7 l2 /\
           Signal.app rb =
             left_by faulty OnCustomSignalEmitted event l2
               (left_by_call faulty OnCustomSignalEmitted event 7
                  (left_by faulty OnCustomSignalEmitted event l1
                     (Signal.app ra)))) /\
    exists r2,
      Signal.unsubscribe this 7 r1 = (Return tt, r2) /\
      forall ra (event : Signal.Event (any := literal) OnCustomSignalEmitted),
        Signal.statics ra = Signal.statics r2 ->
        exists rb,
          Signal.emit faulty OnCustomSignalEmitted event ra = (Return tt, rb) /\
          Signal.statics rb = Signal.statics ra /\
          invocations OnCustomSignalEmitted 7 (calls_since ra rb) = 0 /\
          ~ In 7 (Signal.subscribers OnCustomSignalEmitted (Signal.statics ra)) /\
          Signal.app rb =
            left_by faulty OnCustomSignalEmitted event
              (Signal.subscribers OnCustomSignalEmitted (Signal.statics ra))
              (Signal.app ra).
Proof.
  apply (subscribe_twice_delivers_once nat faulty
           {| Signal.class := OnCustomSignalEmitted; Signal.object := 3 |}
           7 (bus [3; 5])).
  now apply (bool_decide_unpack _).
Defined.

(** The function 0 throws; the functions 1 and 2, subscribed after it,
    are called all the same, the error is on the console and emit
    returns. *)
Lemma emit_after_a_throw :
  Signal.emit faulty OnCustomSignalEmitted ping (bus [0; 1; 2]) =
  (Return tt,
   {| Signal.statics := Signal.statics (bus [0; 1; 2]);
      Signal.objects := 4; Signal.app := 2;
      Signal.errors :=
        [("Error @ACM:OnCustomSignalEmittedEvent global subscriber:", TypeError)];
      Signal.calls := [(OnCustomSignalEmitted, 0); (OnCustomSignalEmitted, 1);
                       (OnCustomSignalEmitted, 2)] |}).
Proof. reflexivity. Qed.

(** ** The directory registry *)

Section Registry.
Implicit Types (w : World) (a : AddonData) (name : string).

Lemma format_run w a name :
  AcmLib_addonData w = Some a ->
  FsDir.format name w = (Return (formatted a name), w).
Proof.
  intros Ha. unfold FsDir.format, FsSys._format, FsSys.getLocalId, get_addonData.
  unfold_eff. now rewrite Ha.
Qed.

Lemma create_run w a (db : ScoreboardObjective) :
  AcmLib_addonData w = Some a ->
  Directory.create db w = (Return (directory_over a db), w).
Proof.
  intros Ha. unfold Directory.create, get_addonData. unfold_eff.
  now rewrite Ha.
Qed.

Lemma get_run w a name :
  AcmLib_addonData w = Some a ->
  FsDir.get name w =
  (Return (directory_over a <$> scoreboard w !! formatted a name), w).
Proof.
  intros Ha. unfold FsDir.get, getObjective.
  unfold mbind, mret, Eff_bind, Eff_ret, bind, ret.
  rewrite (format_run w a name Ha). cbv beta iota.
  destruct (scoreboard w !! formatted a name) as [db|]; [|reflexivity].
  now rewrite (create_run w a db Ha).
Qed.

Lemma isValid_run w a name :
  AcmLib_addonData w = Some a ->
  FsDir.isValid name w =
  (Return (bool_decide (scoreboard w !! formatted a name <> None)), w).
Proof.
  intros Ha. unfold FsDir.isValid, getObjective.
  unfold mbind, mret, Eff_bind, Eff_ret, bind, ret.
  now rewrite (format_run w a name Ha).
Qed.

(** [new] on a name whose ledger exists. *)
Lemma new_existing w a name (ignoreWarn : bool) (db : ScoreboardObjective) :
  AcmLib_addonData w = Some a ->
  scoreboard w !! formatted a name = Some db ->
  exists w',
    FsDir.new name ignoreWarn w = (Return (directory_over a db), w') /\
    scoreboard w' = scoreboard w /\
    AcmLib_addonData w' = AcmLib_addonData w.
Proof.
  intros Ha Hdb. unfold FsDir.new.
  unfold mbind, mret, Eff_bind, Eff_ret, bind, ret.
  rewrite (format_run w a name Ha). cbv beta iota.
  rewrite (isValid_run w a name Ha), Hdb. cbv beta iota.
  rewrite bool_decide_eq_true_2 by discriminate.
  destruct ignoreWarn; cbn [negb]; unfold console_warn; cbv beta iota.
  - rewrite (get_run w a name Ha), Hdb. eauto.
  - match goal with |- context [FsDir.get name ?s] =>
      rewrite (get_run s a name Ha) end.
    cbn [scoreboard]. rewrite Hdb. eauto.
Qed.

(** [new] on a name without a ledger makes the ledger. *)
Lemma new_missing w a name (ignoreWarn : bool) :
  AcmLib_addonData w = Some a ->
  scoreboard w !! formatted a name = None ->
  let db := {| id := formatted a name; displayName := formatted a name;
               scores := [] |} in
  FsDir.new name ignoreWarn w =
  (Return (directory_over a db),
   with_scoreboard w (<[formatted a name := db]> (scoreboard w))).
Proof.
  intros Ha Hdb db. unfold FsDir.new.
  unfold mbind, mret, Eff_bind, Eff_ret, bind, ret.
  rewrite (format_run w a name Ha). cbv beta iota.
  rewrite (isValid_run w a name Ha), Hdb. cbv beta iota.
  rewrite bool_decide_eq_false_2 by tauto. cbv beta iota.
  unfold addObjective. rewrite Hdb.
  now rewrite (create_run _ a db).
Qed.

(** C8.  With the addon initialized: when a ledger named
    format(name) exists, new(name) raises nothing and returns the
    Directory over that ledger (its reference and display name),
    leaving the ledgers as they are; calling new(name) twice returns
    the same Directory both times, the second call changing no
    ledger; and after delete(name) has removed the ledger, get(name)
    returns absent. *)
Theorem new_returns_existing w a name (ignoreWarn ignoreWarn' : bool) :
  AcmLib_addonData w = Some a ->
  (forall db, scoreboard w !! formatted a name = Some db ->
     exists w',
       FsDir.new name ignoreWarn w = (Return (directory_over a db), w') /\
       scoreboard w' = scoreboard w) /\
  (exists dir db w1 w2,
     FsDir.new name ignoreWarn w = (Return dir, w1) /\
     FsDir.new name ignoreWarn' w1 = (Return dir, w2) /\
     scoreboard w1 !! formatted a name = Some db /\
     dir = directory_over a db /\
     scoreboard w2 = scoreboard w1) /\
  (forall db, scoreboard w !! formatted a name = Some db ->
     exists w',
       FsDir.delete name w = (Return tt, w') /\
       FsDir.get name w' = (Return None, w')).
Proof.
  intros Ha. repeat split.
  - intros db Hdb.
    destruct (new_existing w a name ignoreWarn db Ha Hdb) as (w' & ? & ? & _).
    eauto.
  - destruct (scoreboard w !! formatted a name) as [db|] eqn:Hdb.
    + destruct (new_existing w a name ignoreWarn db Ha Hdb)
        as (w1 & Hn1 & Hs1 & Ha1).
      rewrite <- Hs1 in Hdb. rewrite Ha in Ha1.
      destruct (new_existing w1 a name ignoreWarn' db Ha1 Hdb)
        as (w2 & Hn2 & Hs2 & _).
      exists (directory_over a db), db, w1, w2. auto.
    + pose (db := {| id := formatted a name; displayName := formatted a name;
                     scores := [] |}).
      pose (w1 := with_scoreboard w (<[formatted a name := db]> (scoreboard w))).
      assert (Hdb1 : scoreboard w1 !! formatted a name = Some db)
        by apply lookup_insert_eq.
      destruct (new_existing w1 a name ignoreWarn' db Ha Hdb1)
        as (w2 & Hn2 & Hs2 & _).
      exists (directory_over a db), db, w1, w2.
      rewrite (new_missing w a name ignoreWarn Ha Hdb). auto.
  - intros db Hdb. unfold FsDir.delete.
    unfold mbind, mret, Eff_bind, Eff_ret, bind, ret.
    rewrite (get_run w a name Ha), Hdb. cbn [fmap option_fmap option_map].
    cbv beta iota. rewrite (format_run w a name Ha). cbv beta iota.
    unfold removeObjective. eexists. split; [reflexivity|].
    rewrite (get_run (with_scoreboard w _) a name Ha).
    cbn [scoreboard with_scoreboard]. now rewrite lookup_delete_eq.
Qed.

End Registry.

(** C8, witness: the directory ["logs"] of ME_PACK, whose ledger
    exists. *)
Lemma new_returns_existing_witness :
  let db := ledger "ACM:FS.ME_PACK.LOGS" [("a:true", 0%Z)] in
  let w := world_of [("ACM:FS.ME_PACK.LOGS", db)] in
  (exists w',
     FsDir.new "logs" false w = (Return mine, w') /\
     scoreboard w' = scoreboard w) /\
  (exists w',
     FsDir.delete "logs" w = (Return tt, w') /\
     FsDir.get "logs" w' = (Return None, w')).
Proof.
  pose (db := ledger "ACM:FS.ME_PACK.LOGS" [("a:true", 0%Z)]).
  pose (w := world_of [("ACM:FS.ME_PACK.LOGS", db)]).
  destruct (new_returns_existing w me_pack "logs" false false eq_refl)
    as (Hnew & _ & Hdel).
  split.
  - apply (Hnew db). vm_compute. reflexivity.
  - apply (Hdel db). vm_compute. reflexivity.
Defined.

(** ** The settings loader *)

(** [find] answers the first element that passes the test. *)
Lemma find_first {A} (P : A -> bool) (l : list A) (p : A) :
  List.find P l = Some p <->
  exists l1 l2, l = (l1 ++ p :: l2)%list /\ P p = true /\
                forall q, In q l1 -> P q = false.
Proof.
  split.
  - induction l as [|x l IH]; simpl; [discriminate|].
    destruct (P x) eqn:E.
    + intros [= ->]. exists [], l. repeat split; auto. intros q [].
    + intros (l1 & l2 & -> & Hp & Hq)%IH.
      exists (x :: l1), l2. repeat split; auto.
      intros q [<-|Hin]; auto.
  - intros (l1 & l2 & -> & Hp & Hq).
    induction l1 as [|x l1 IH]; simpl; [now rewrite Hp|].
    rewrite (Hq x) by now left. apply IH. intros q Hin. apply Hq. now right.
Qed.

Section SettingsFacts.
Import AcmLibrary.
Variable parse : string -> option (list SettingsWidget).
Implicit Types (w : World) (a : AddonData) (db : ScoreboardObjective).

(** The blob is the first participant whose score is zero. *)
Lemma raw_is_first_zero db p :
  getRawSettingsData db = Some p <->
  exists l1 l2,
    participants db = (l1 ++ p :: l2)%list /\ score db p = Some 0%Z /\
    forall q, In q l1 -> score db q <> Some 0%Z.
Proof.
  unfold getRawSettingsData. rewrite find_first.
  split; intros (l1 & l2 & Hl & Hp & Hq); exists l1, l2;
    (split; [exact Hl|]); split.
  - now apply bool_decide_eq_true in Hp.
  - intros q Hin. specialize (Hq q Hin). now apply bool_decide_eq_false in Hq.
  - now apply bool_decide_eq_true.
  - intros q Hin. apply bool_decide_eq_false. now apply Hq.
Qed.

Lemma raw_none db :
  getRawSettingsData db = None <->
  forall q, In q (participants db) -> score db q <> Some 0%Z.
Proof.
  unfold getRawSettingsData. rewrite find_none_iff.
  split; intros Hq q Hin; specialize (Hq q Hin).
  - now apply bool_decide_eq_false in Hq.
  - now apply bool_decide_eq_false.
Qed.

Lemma settings_database_run w a (categoryTitle : option string) :
  AcmLib_addonData w = Some a ->
  getSettingsDatabase categoryTitle w =
  (Return (scoreboard w !! settings_ledger a categoryTitle), w).
Proof.
  intros Ha. unfold getSettingsDatabase, identifier, get_addonData, getObjective.
  unfold_eff. rewrite Ha. unfold settings_ledger, localId_of.
  now destruct categoryTitle as [[|c t]|].
Qed.

(** Both loaders, from their ledger on. *)
Lemma flat_run w a :
  AcmLib_addonData w = Some a ->
  processFlatSettings parse w =
  (match scoreboard w !! settings_ledger a None with
   | None => Return ∅
   | Some db => blob_of parse db
   end, w).
Proof.
  intros Ha. unfold processFlatSettings, parseSettingsArray, blob_of.
  unfold mbind, mret, Eff_bind, Eff_ret, bind, ret, throw.
  rewrite (settings_database_run w a None Ha). cbv beta iota.
  destruct (scoreboard w !! settings_ledger a None) as [db|]; [|reflexivity].
  destruct (getRawSettingsData db) as [raw|]; [|reflexivity].
  now destruct (parse raw).
Qed.

Lemma category_run w a (category : SettingsCatagory) :
  AcmLib_addonData w = Some a ->
  processCategorySettings parse category w =
  (match scoreboard w !! settings_ledger a (Some (title category)) with
   | None => Return ∅
   | Some db => blob_of parse db
   end, w).
Proof.
  intros Ha. unfold processCategorySettings, parseSettingsArray, blob_of.
  unfold mbind, mret, Eff_bind, Eff_ret, bind, ret, throw.
  rewrite (settings_database_run w a _ Ha). cbv beta iota.
  destruct (scoreboard w !! _) as [db|]; [|reflexivity].
  destruct (getRawSettingsData db) as [raw|]; [|reflexivity].
  now destruct (parse raw).
Qed.

Lemma blob_reads_slot_zero w db :
  reads_slot_zero parse w db (blob_of parse db, w).
Proof.
  unfold blob_of. split.
  - intros Hq. apply raw_none in Hq. now rewrite Hq.
  - intros l1 p l2 Hl Hq Hp.
    assert (Hraw : getRawSettingsData db = Some p)
      by (apply raw_is_first_zero; eauto).
    now rewrite Hraw.
Qed.

(** C9.  With the addon initialized, the flat loader on the addon's
    settings ledger and the category loader on the ledger of its
    category take the blob from the first participant whose score is
    exactly zero, and answer the empty object when no participant has
    score zero; loadSettingsData is made of these answers. *)
Theorem settings_read_slot_zero w a :
  AcmLib_addonData w = Some a ->
  (forall db, scoreboard w !! settings_ledger a None = Some db ->
     reads_slot_zero parse w db (processFlatSettings parse w)) /\
  (forall db category,
     scoreboard w !! settings_ledger a (Some (title category)) = Some db ->
     reads_slot_zero parse w db (processCategorySettings parse category w)) /\
  (forall widgets, settings a = Some (inl widgets) ->
     loadSettingsData parse w =
     match processFlatSettings parse w with
     | (Return flat, w') => (Return (flat ∪ ∅), w')
     | (Throw e, w') => (Throw e, w')
     end) /\
  (forall category rest, settings a = Some (inr (category :: rest)) ->
     loadSettingsData parse w =
     match processCategorySettings parse category w with
     | (Return categoryObject, w') =>
         forEach_category parse rest
           (set_property ∅ (title category) (VObject categoryObject)) w'
     | (Throw e, w') => (Throw e, w')
     end).
Proof.
  intros Ha. split; [|split; [|split]].
  - intros db Hdb. rewrite (flat_run w a Ha), Hdb.
    apply blob_reads_slot_zero.
  - intros db category Hdb. rewrite (category_run w a category Ha), Hdb.
    apply blob_reads_slot_zero.
  - intros widgets Hs. unfold loadSettingsData, get_addonData, isSettingsCatagory.
    unfold mbind, mret, Eff_bind, Eff_ret, bind, ret.
    rewrite Ha, Hs. cbv beta iota.
    now destruct (processFlatSettings parse w) as [[flat|e] w'].
  - intros category rest Hs.
    unfold loadSettingsData, get_addonData, isSettingsCatagory.
    unfold mbind, mret, Eff_bind, Eff_ret, bind, ret.
    rewrite Ha, Hs. cbv beta iota.
    rewrite bool_decide_eq_true_2 by discriminate.
    cbn [forEach_category]. unfold mbind, Eff_bind, bind.
    now destruct (processCategorySettings parse category w) as [[o|e] w'].
Qed.

End SettingsFacts.

(** C9, witness: the flat settings ledger of ME_PACK, where the blob
    comes second with score zero, and the same ledger without a
    participant of score zero. *)
Lemma settings_read_slot_zero_witness :
  let db := ledger "ACM:ME_PACK" [("stale", 3%Z); (sound_blob, 0%Z); ("[]", 0%Z)] in
  let db' := ledger "ACM:ME_PACK" [("stale", 3%Z); (sound_blob, 1%Z)] in
  AcmLibrary.processFlatSettings parse_known (world_of [("ACM:ME_PACK", db)])
    = (Return (<["sound" := VBool true]> ∅), world_of [("ACM:ME_PACK", db)]) /\
  AcmLibrary.processFlatSettings parse_known (world_of [("ACM:ME_PACK", db')])
    = (Return ∅, world_of [("ACM:ME_PACK", db')]).
Proof.
  pose (db := ledger "ACM:ME_PACK"
                [("stale", 3%Z); (sound_blob, 0%Z); ("[]", 0%Z)]).
  pose (db' := ledger "ACM:ME_PACK" [("stale", 3%Z); (sound_blob, 1%Z)]).
  split.
  - refine (proj2 (proj1 (settings_read_slot_zero parse_known
                            (world_of [("ACM:ME_PACK", db)]) me_pack eq_refl)
                         db _)
                  ["stale"] sound_blob ["[]"] eq_refl _ eq_refl).
    + vm_compute. reflexivity.
    + intros q [<-|[]]. vm_compute. discriminate.
  - refine (proj1 (proj1 (settings_read_slot_zero parse_known
                            (world_of [("ACM:ME_PACK", db')]) me_pack eq_refl)
                         db' _) _).
    + vm_compute. reflexivity.
    + intros q [<-|[<-|[]]]; vm_compute; discriminate.
Defined.

(** * Further properties of the code *)

(** ** Directory: copy, move, sizes and listing *)

Lemma length_append (a b : string) :
  String.length (a +:+ b) = String.length a + String.length b.
Proof.
  induction a as [|x a IH]; [reflexivity|].
  rewrite append_cons. simpl. now rewrite IH.
Qed.

(** [setScore] keeps the participants and adds at most the new one,
    after them. *)
Lemma set_entry_old (l : list (string * Z)) (k : string) (v : Z) :
  In k (map fst l) -> map fst (set_entry l k v) = map fst l.
Proof.
  induction l as [|[p w] l IH]; intros Hk; [destruct Hk|].
  simpl in *. destruct (String.eqb p k) eqn:E; [reflexivity|].
  simpl. f_equal. apply IH. destruct Hk as [Hk|Hk]; [|exact Hk].
  apply String.eqb_neq in E. now destruct E.
Qed.

Lemma set_entry_grows (l : list (string * Z)) (k : string) (v : Z) :
  exists tail, map fst (set_entry l k v) = (map fst l ++ tail)%list.
Proof.
  destruct (in_dec string_dec k (map fst l)) as [Hin|Hout].
  - exists []. now rewrite app_nil_r, set_entry_old.
  - exists [k]. now apply set_entry_new.
Qed.

Lemma filter_snoc_keep {A} (P : A -> bool) (l : list A) (k : A) :
  P k = true -> List.filter P (l ++ [k])%list = (List.filter P l ++ [k])%list.
Proof. intros Hk. rewrite List.filter_app. simpl. now rewrite Hk. Qed.

(** A new element that does not satisfy [P], wherever it is put,
    leaves the first element that satisfies [P] the same; one that
    satisfies [P], put among elements that do not, is the first. *)
Lemma find_inserted {A} (P : A -> bool) (l1 l2 : list A) (k : A) :
  P k = false -> List.find P (l1 ++ k :: l2)%list = List.find P (l1 ++ l2)%list.
Proof.
  intros Hk. induction l1 as [|x l1 IH]; simpl; [now rewrite Hk|].
  now destruct (P x).
Qed.

Lemma find_inserted_new {A} (P : A -> bool) (l1 l2 : list A) (k : A) :
  P k = true -> List.find P (l1 ++ l2)%list = None ->
  List.find P (l1 ++ k :: l2)%list = Some k.
Proof.
  intros Hk. induction l1 as [|x l1 IH]; simpl; [now rewrite Hk|].
  destruct (P x); [discriminate|exact IH].
Qed.

Section DirectoryMore.
Context {any : Type} `{Json any}.
Implicit Types (d : Directory.t) (o : ScoreboardObjective).
Implicit Types (f g p : string) (c : any).

(** What read answers depends on the participants only. *)
Lemma read_of_participants f o o' :
  participants o = participants o' ->
  fst (Directory.read f o) = fst (Directory.read f o').
Proof. intros Hp. rewrite !read_run. unfold entry. now rewrite Hp. Qed.

(** Participants added after the others do not change what read
    answers for a file that has an entry. *)
Lemma read_of_older f o o' (tail : list string) :
  has f o = true ->
  participants o' = (participants o ++ tail)%list ->
  fst (Directory.read f o') = fst (Directory.read f o).
Proof.
  intros [i Hi]%has_true Hp. rewrite !read_run. unfold entry in *.
  now rewrite Hp, (find_app_some _ _ tail i Hi), Hi.
Qed.

Lemma has_of_older f o o' (tail : list string) :
  has f o = true ->
  participants o' = (participants o ++ tail)%list ->
  has f o' = true.
Proof.
  intros [i Hi]%has_true Hp. apply has_true. exists i. unfold entry in *.
  now rewrite Hp, (find_app_some _ _ tail i Hi).
Qed.

(** The participants after a write by the owner. *)
Lemma write_grows d f c (allowOverwrite : bool) o :
  owned d ->
  exists promise o' tail,
    Directory.write d f c allowOverwrite o = (Return promise, o') /\
    participants o' = (participants o ++ tail)%list /\
    (forall e, promise = Rejected e -> o' = o).
Proof.
  intros Hd. rewrite (write_run d f c allowOverwrite o Hd).
  destruct (has f o && negb allowOverwrite).
  - exists (Rejected (AlreadyExists f)), o, []. now rewrite app_nil_r.
  - destruct (set_entry_grows (scores o) (f +:+ ":" +:+ JSON_stringify c)
                (Z.of_nat (length (participants o)))) as [tail Ht].
    do 2 eexists. exists tail. split; [reflexivity|].
    split; [exact Ht|discriminate].
Qed.

Lemma copy_run d (src dst : string) o :
  owned d ->
  Directory.copy d src dst o =
  if negb (has src o) then (Throw (NotFound src), o) else
  if has dst o then (Throw (AlreadyExists dst), o) else
  match entry src o with
  | None => (Throw (NotFound src), o)
  | Some i =>
      match JSON_parse (replace i (src +:+ ":") "") with
      | None => (Throw (SyntaxError (replace i (src +:+ ":") "")), o)
      | Some content =>
          (Return tt, snd (Directory.write d dst content true o))
      end
  end.
Proof.
  intros Hd.
  unfold Directory.copy, Directory.isOwner, Directory.getKeyData.
  unfold mbind, mret, Eff_bind, Eff_ret, bind, ret, throw.
  rewrite exists_run. cbv beta iota.
  destruct (has src o); cbv beta iota delta [negb]; [|reflexivity].
  rewrite exists_run. cbv beta iota.
  destruct (has dst o); [reflexivity|].
  cbv beta iota. rewrite Hd. cbv beta iota delta [negb].
  change (Directory.getKeyIdentity src o) with (Return (entry src o), o).
  cbv beta iota.
  destruct (entry src o) as [i|]; [|reflexivity].
  destruct (JSON_parse _) as [content|]; [|reflexivity]. cbv beta iota.
  destruct (write_returns d dst content true o) as (promise & o2 & ->).
  reflexivity.
Qed.

Lemma move_run d (src dst : string) o :
  owned d ->
  Directory.move d src dst o =
  match Directory.copy d src dst o with
  | (Return _, o1) => Directory.delete d src o1
  | (Throw e, o1) => (Throw e, o1)
  end.
Proof.
  intros Hd. unfold Directory.move, Directory.isOwner.
  unfold mbind, mret, Eff_bind, Eff_ret, bind, ret, throw.
  rewrite Hd. cbv beta iota delta [negb].
  now destruct (Directory.copy d src dst o) as [[[]|e] o1].
Qed.

(** On a directory that is not owned, every mutation stops at the
    first failing check. *)
Lemma not_owner_runs d o f g c (allowOverwrite : bool) :
  includes (Directory.dbId d) (Directory.localId d) = false ->
  (exists e, Directory.write d f c allowOverwrite o = (Return (Rejected e), o)) /\
  (exists e, Directory.delete d f o = (Throw e, o)) /\
  (exists e, Directory.rename d f g o = (Throw e, o)) /\
  (exists e, Directory.copy d f g o = (Throw e, o)) /\
  Directory.move d f g o = (Throw (denied d), o).
Proof.
  intros Hd.
  destruct (has f o) eqn:Ef, (has g o) eqn:Eg, allowOverwrite;
    unfold has, entry in Ef, Eg;
    unfold Directory.move, Directory.write, Directory.delete, Directory.rename,
      Directory.copy, Directory.isOwner, Directory.exists_,
      Directory.getKeyIdentity, getParticipants, denied;
    unfold_eff;
    do 3 (simpl; rewrite ?Ef, ?Eg, ?Hd); eauto 10.
Qed.

End DirectoryMore.

Section DirectoryExtras.
Context {any : Type} `{Json any}.
Implicit Types (d : Directory.t) (o : ScoreboardObjective).
Implicit Types (f g p : string) (c : any).

Lemma read_state f o : Directory.read f o = (fst (Directory.read f o), o).
Proof. now rewrite read_run. Qed.

(** A successful read names the entry it read. *)
Lemma read_returns f c o :
  Directory.read f o = (Return c, o) ->
  exists i, entry f o = Some i /\
            JSON_parse (replace i (f +:+ ":") "") = Some c.
Proof.
  rewrite read_run. destruct (entry f o) as [i|]; [|discriminate].
  destruct (JSON_parse _) as [c'|] eqn:E; [|discriminate].
  intros [= ->]. eauto.
Qed.

(** What exists and read answer for [f] after a participant that does
    not stand for [f] was added, wherever the host lists it. *)
Lemma read_of_inserted f o o' (l1 l2 : list string) (k : string) :
  participants o = (l1 ++ l2)%list ->
  participants o' = (l1 ++ k :: l2)%list ->
  startsWith k (f +:+ ":") = false ->
  has f o' = has f o /\ fst (Directory.read f o') = fst (Directory.read f o).
Proof.
  intros Hp Hp' Hk.
  assert (He : entry f o' = entry f o).
  { unfold entry. rewrite Hp, Hp'. now apply find_inserted. }
  split; [unfold has; now rewrite He|].
  rewrite !read_run. now rewrite He.
Qed.

(** What exists and read answer for [f] after its label was added to
    a ledger that had no entry for it, wherever the host lists it. *)
Lemma read_inserted f c o o' (l1 l2 : list string) :
  participants o = (l1 ++ l2)%list ->
  participants o' = (l1 ++ (f +:+ ":" +:+ JSON_stringify c) :: l2)%list ->
  has f o = false -> serializable c ->
  has f o' = true /\ Directory.read f o' = (Return c, o').
Proof.
  intros Hp Hp' Hf Hc. apply has_false in Hf. unfold entry in Hf.
  rewrite Hp in Hf.
  assert (He : entry f o' = Some (f +:+ ":" +:+ JSON_stringify c)).
  { unfold entry. rewrite Hp'.
    apply find_inserted_new; [apply key_starts|exact Hf]. }
  split; [apply has_true; eauto|].
  rewrite read_run, He, replace_key. unfold serializable in Hc.
  now rewrite Hc.
Qed.

(** Copying a file.  In a directory it owns, copy(src,dst) fails with
    NotFound when src has no entry and with AlreadyExists when src has
    one and dst has one too; when dst has no entry, the name dst does
    not start with ["src:"] and read(src) returns a serializable
    content, copy adds one participant, the label of dst with that
    content, and afterwards read(src) and read(dst) both return the
    content.  Nothing is said of the place of the new participant in
    the list. *)
Theorem copy_duplicates d o (src dst : string) :
  owned d ->
  (has src o = false ->
     Directory.copy d src dst o = (Throw (NotFound src), o)) /\
  (has src o = true -> has dst o = true ->
     Directory.copy d src dst o = (Throw (AlreadyExists dst), o)) /\
  (forall c,
     has dst o = false -> startsWith dst (src +:+ ":") = false ->
     Directory.read src o = (Return c, o) -> serializable c ->
     exists o',
       Directory.copy d src dst o = (Return tt, o') /\
       Permutation (participants o')
                   ((dst +:+ ":" +:+ JSON_stringify c) :: participants o) /\
       Directory.read src o' = (Return c, o') /\
       Directory.read dst o' = (Return c, o')).
Proof.
  intros Hd. rewrite (copy_run d src dst o Hd). repeat split.
  - now intros ->.
  - now intros -> ->.
  - intros c Hdst Hprefix Hread Hc.
    destruct (read_returns src c o Hread) as (i & Hi & Hparse).
    assert (Hsrc : has src o = true) by (apply has_true; eauto).
    rewrite Hsrc, Hdst, Hi, Hparse. cbv beta iota delta [negb].
    apply has_false in Hdst as Hdst'.
    destruct (write_fresh d dst c true o Hd Hdst') as (o' & -> & Hp).
    assert (Hkey : startsWith (dst +:+ ":" +:+ JSON_stringify c)
                              (src +:+ ":") = false).
    { apply find_some in Hi as [Hin Hi].
      apply (key_of_other src dst i); [exact Hprefix|exact Hi|].
      exact (find_none _ _ Hdst' i Hin). }
    assert (Hp0 : participants o = (participants o ++ [])%list)
      by now rewrite app_nil_r.
    exists o'. split; [reflexivity|]. split; [|split].
    + rewrite Hp. symmetry. apply Permutation_cons_append.
    + destruct (read_of_inserted src o o' _ [] _ Hp0 Hp Hkey) as [_ Hrd].
      now rewrite read_state, Hrd, Hread.
    + now destruct (read_inserted dst c o o' _ [] Hp0 Hp Hdst Hc).
Qed.

(** The state a rename or a move ends in: the entries other than the
    one of the old name, then the entry of the new name. *)
Lemma moved_shape (old new : string) p c o o' :
  matching old o = [p] -> has new o = false ->
  startsWith new (old +:+ ":") = false -> serializable c ->
  participants o' =
    (List.filter (fun q => negb (String.eqb q p)) (participants o) ++
     [new +:+ ":" +:+ JSON_stringify c])%list ->
  Directory.exists_ old o' = (Return false, o') /\
  Directory.exists_ new o' = (Return true, o') /\
  Directory.read new o' = (Return c, o').
Proof.
  intros Hm Hnew Hprefix Hc Hp'.
  pose proof (find_single _ _ _ Hm) as Hp. apply has_false in Hnew.
  assert (Hrest : List.find (fun q => startsWith q (new +:+ ":"))
            (List.filter (fun q => negb (String.eqb q p)) (participants o))
          = None).
  { apply find_none_iff. intros q [Hq _]%filter_In.
    exact (find_none _ _ Hnew q Hq). }
  destruct (read_last new c o' _ Hp' Hrest Hc) as [Hhas Hrd].
  rewrite !exists_run, Hhas. repeat split; [|exact Hrd].
  f_equal. f_equal. apply has_false. unfold entry.
  rewrite Hp', (find_snoc _ _ _ (matching_removed old p o Hm)).
  apply find_some in Hp as [Hin Hpo].
  rewrite (key_of_other old new p); auto.
  exact (find_none _ _ Hnew p Hin).
Qed.

Lemma rename_shape d (old new : string) p c o :
  owned d -> matching old o = [p] -> has new o = false ->
  Directory.read old o = (Return c, o) ->
  exists o',
    Directory.rename d old new o = (Return tt, o') /\
    participants o' =
      (List.filter (fun q => negb (String.eqb q p)) (participants o) ++
       [new +:+ ":" +:+ JSON_stringify c])%list.
Proof.
  intros Hd Hm Hnew Hread. rewrite (rename_run d old new o Hd).
  pose proof (find_single _ _ _ Hm) as Hp. fold (entry old o) in Hp.
  assert (Hold : has old o = true) by (apply has_true; eauto).
  destruct (read_returns old c o Hread) as (i & Hi & Hparse).
  rewrite Hp in Hi. injection Hi as <-.
  rewrite Hold, Hnew, Hp, Hparse. cbv beta iota delta [negb].
  destruct (delete_single d old p o Hd Hm) as (o1 & -> & Hp1 & _).
  assert (Hnew1 : entry new o1 = None).
  { unfold entry. rewrite Hp1. apply find_none_iff.
    intros q [Hq _]%filter_In.
    apply has_false in Hnew. exact (find_none _ _ Hnew q Hq). }
  destruct (write_fresh d new c true o1 Hd Hnew1) as (o2 & -> & Hp2).
  exists o2. split; [reflexivity|]. now rewrite Hp2, Hp1.
Qed.

(** Moving a file.  In a directory it owns, when exactly one entry
    stands for src, none stands for dst, the name dst does not start
    with ["src:"] and read(src) returns a serializable content, move
    succeeds; afterwards exists(src) is false, exists(dst) is true,
    read(dst) returns the content, and the participants are those a
    rename(src,dst) leaves. *)
Theorem move_like_rename d o (src dst : string) p c :
  owned d ->
  matching src o = [p] -> has dst o = false ->
  startsWith dst (src +:+ ":") = false ->
  Directory.read src o = (Return c, o) -> serializable c ->
  exists o',
    Directory.move d src dst o = (Return tt, o') /\
    Directory.exists_ src o' = (Return false, o') /\
    Directory.exists_ dst o' = (Return true, o') /\
    Directory.read dst o' = (Return c, o') /\
    participants o' = participants (snd (Directory.rename d src dst o)).
Proof.
  intros Hd Hm Hdst Hprefix Hread Hc.
  destruct (rename_shape d src dst p c o Hd Hm Hdst Hread) as (o2 & -> & Hp2).
  cbn [snd]. rewrite Hp2.
  pose proof (find_single _ _ _ Hm) as Hp. fold (entry src o) in Hp.
  assert (Hsrc : has src o = true) by (apply has_true; eauto).
  destruct (read_returns src c o Hread) as (i & Hi & Hparse).
  rewrite Hp in Hi. injection Hi as <-.
  rewrite (move_run d src dst o Hd), (copy_run d src dst o Hd).
  rewrite Hsrc, Hdst, Hp, Hparse. cbv beta iota delta [negb].
  apply has_false in Hdst as Hdst'.
  destruct (write_fresh d dst c true o Hd Hdst') as (o1 & -> & Hp1).
  cbn [snd]. rewrite (delete_run d src o1 Hd).
  assert (Hp' : entry src o1 = Some p).
  { unfold entry in *. rewrite Hp1. now apply find_app_some. }
  rewrite Hp'. eexists. split; [reflexivity|].
  assert (Hshape : participants (with_scores o1
             (List.filter (fun e => negb (String.eqb (fst e) p)) (scores o1)))
           = (List.filter (fun q => negb (String.eqb q p)) (participants o) ++
              [dst +:+ ":" +:+ JSON_stringify c])%list).
  { rewrite participants_with_scores, remove_participants.
    fold (participants o1). rewrite Hp1. apply filter_snoc_keep.
    apply negb_true_iff, String.eqb_neq. intros Heq.
    apply find_some in Hp as [Hin Hpo].
    pose proof (find_none _ _ Hdst' p Hin) as Hpd. cbv beta in Hpd.
    now rewrite <- Heq, key_starts in Hpd. }
  destruct (moved_shape src dst p c o _ Hm Hdst Hprefix Hc Hshape)
    as (He1 & He2 & Hr).
  repeat split; assumption.
Qed.

(** No partial update.  On every directory, owned or not: a write whose
    promise is rejected, and a delete, rename, copy or move that
    throws, leave the ledger exactly as it was. *)
Theorem failure_changes_nothing d o f g c (allowOverwrite : bool) :
  (forall e o', Directory.write d f c allowOverwrite o
                = (Return (Rejected e), o') -> o' = o) /\
  (forall e o', Directory.delete d f o = (Throw e, o') -> o' = o) /\
  (forall e o', Directory.rename d f g o = (Throw e, o') -> o' = o) /\
  (forall e o', Directory.copy d f g o = (Throw e, o') -> o' = o) /\
  (forall e o', Directory.move d f g o = (Throw e, o') -> o' = o).
Proof.
  destruct (includes (Directory.dbId d) (Directory.localId d)) eqn:Hd.
  - assert (Hdel : forall h o1, has h o1 = true ->
              exists o2, Directory.delete d h o1 = (Return tt, o2)).
    { intros h o1 [i Hi]%has_true. rewrite (delete_run d h o1 Hd), Hi. eauto. }
    assert (Hcopy : forall e o', Directory.copy d f g o = (Throw e, o') -> o' = o).
    { intros e o'. rewrite (copy_run d f g o Hd).
      destruct (has f o); cbv beta iota delta [negb]; [|congruence].
      destruct (has g o); [congruence|].
      destruct (entry f o) as [i|]; [|congruence].
      destruct (JSON_parse _); [discriminate|congruence]. }
    repeat split.
    + intros e o' Hw.
      destruct (write_grows d f c allowOverwrite o Hd)
        as (promise & o1 & tail & Hw' & _ & Hrej).
      rewrite Hw' in Hw. injection Hw as -> <-. now apply (Hrej e).
    + intros e o'. rewrite (delete_run d f o Hd).
      destruct (entry f o); [discriminate|congruence].
    + intros e o'. rewrite (rename_run d f g o Hd).
      destruct (has f o) eqn:Hf; cbv beta iota delta [negb]; [|congruence].
      destruct (has g o); [congruence|].
      destruct (entry f o) as [i|]; [|congruence].
      destruct (JSON_parse _); [|congruence].
      destruct (Hdel f o Hf) as [o2 ->]. discriminate.
    + exact Hcopy.
    + intros e o'. rewrite (move_run d f g o Hd).
      destruct (Directory.copy d f g o) as [[[]|e1] o1] eqn:Ecopy.
      * rewrite (copy_run d f g o Hd) in Ecopy.
        destruct (has f o) eqn:Hf; cbv beta iota delta [negb] in Ecopy;
          [|discriminate].
        destruct (has g o); [discriminate|].
        destruct (entry f o) as [i|]; [|discriminate].
        destruct (JSON_parse _) as [content|]; [|discriminate].
        injection Ecopy as <-.
        destruct (write_grows d g content true o Hd)
          as (promise & o2 & tail & -> & Hp & _).
        cbn [snd].
        destruct (Hdel f o2 (has_of_older f o o2 tail Hf Hp)) as [o3 ->].
        discriminate.
      * intros [= <- <-]. now apply (Hcopy e1).
  - destruct (not_owner_runs d o f g c allowOverwrite Hd)
      as ([e1 ->] & [e2 ->] & [e3 ->] & [e4 ->] & ->).
    repeat split; intros e o'; congruence.
Qed.

(** A file that has an entry keeps one when participants are only
    added. *)
Lemma has_of_members g o o' :
  (forall q, In q (participants o) -> In q (participants o')) ->
  has g o = true -> has g o' = true.
Proof.
  intros Hin [i Hi]%has_true. apply find_some in Hi as [Hi Hs].
  destruct (has g o') eqn:E; [reflexivity|].
  apply has_false in E. now rewrite (find_none _ _ E i (Hin i Hi)) in Hs.
Qed.

(** A write removes nothing.  On every directory, owned or not, after
    any write every participant is still there, so a file that has an
    entry still has one; and read returns for it what it returned
    before unless the label written stands for that file too.  Nothing
    is said of the place of a new participant in the list. *)
Theorem write_keeps_existing d o f g c (allowOverwrite : bool) :
  has g o = true ->
  exists promise o',
    Directory.write d f c allowOverwrite o = (Return promise, o') /\
    (forall q, In q (participants o) -> In q (participants o')) /\
    Directory.exists_ g o' = (Return true, o') /\
    (startsWith (f +:+ ":" +:+ JSON_stringify c) (g +:+ ":") = false ->
     fst (Directory.read g o') = fst (Directory.read g o)).
Proof.
  intros Hg.
  assert (Hsame : Directory.exists_ g o = (Return true, o))
    by now rewrite exists_run, Hg.
  destruct (includes (Directory.dbId d) (Directory.localId d)) eqn:Hd.
  - rewrite (write_run d f c allowOverwrite o Hd).
    destruct (has f o && negb allowOverwrite).
    { exists (Rejected (AlreadyExists f)), o. auto. }
    set (key := f +:+ ":" +:+ JSON_stringify c).
    set (o' := with_scores o _).
    exists (Fulfilled tt), o'. split; [reflexivity|].
    destruct (in_dec string_dec key (participants o)) as [Hin|Hout].
    + assert (Hp : participants o' = participants o).
      { unfold o'. rewrite participants_with_scores.
        now apply set_entry_old. }
      split; [now rewrite Hp|]. split.
      * rewrite exists_run. unfold has, entry. rewrite Hp.
        fold (entry g o). fold (has g o). now rewrite Hg.
      * intros _. now apply read_of_participants.
    + assert (Hp : participants o' = (participants o ++ [key])%list).
      { unfold o'. rewrite participants_with_scores.
        now apply set_entry_new. }
      assert (Hmem : forall q, In q (participants o) -> In q (participants o')).
      { intros q Hq. rewrite Hp. apply in_or_app. now left. }
      split; [exact Hmem|]. split.
      * now rewrite exists_run, (has_of_members g o o' Hmem Hg).
      * intros Hkey.
        assert (Hp0 : participants o = (participants o ++ [])%list)
          by now rewrite app_nil_r.
        now destruct (read_of_inserted g o o' _ [] _ Hp0 Hp Hkey).
  - destruct (not_owner_runs d o f g c allowOverwrite Hd) as ([e ->] & _).
    exists (Rejected e), o. auto.
Qed.

End DirectoryExtras.

(** ** Directory: sizes and listing *)

Lemma before_colon_key (f text : string) :
  before_colon (f +:+ ":" +:+ text) = before_colon f.
Proof.
  induction f as [|a f IH]; [reflexivity|].
  rewrite append_cons. cbn [before_colon]. now rewrite IH.
Qed.

Lemma before_colon_plain (f : string) :
  includes f ":" = false -> before_colon f = f.
Proof.
  induction f as [|a f IH]; [reflexivity|].
  cbn [includes startsWith before_colon].
  rewrite andb_true_r, orb_false_iff. intros [Ha Hf].
  rewrite Ascii.eqb_sym, Ha. now rewrite IH.
Qed.

Lemma total_length_snoc (l : list string) (k : string) :
  fold_left (fun length p => length + String.length p) (l ++ [k]) 0 =
  fold_left (fun length p => length + String.length p) l 0 + String.length k.
Proof. now rewrite fold_left_app. Qed.

Section DirectoryAccounting.
Context {any : Type} `{Json any}.
Implicit Types (d : Directory.t) (o : ScoreboardObjective).
Implicit Types (f : string) (c : any).

(** [fileSize] measures what read returns, and fails as read fails. *)
Lemma fileSize_run f o :
  Directory.fileSize f o =
  (match fst (Directory.read f o) with
   | Return c => Return (String.length (JSON_stringify c))
   | Throw e => Throw e
   end, o).
Proof.
  rewrite read_run.
  unfold Directory.fileSize, Directory.exists_, Directory.getKeyData,
    Directory.getKeyIdentity, getParticipants.
  unfold_eff. unfold entry.
  destruct (List.find _ _) as [i|] eqn:E; simpl; rewrite ?E; [|reflexivity].
  now destruct (JSON_parse _).
Qed.

(** What a write of a new file adds.  In a directory it owns, after
    write(f,c) for a name without entry and a serializable content:
    fileSize(f) is the length of the serialized content, size() has
    grown by the length of the name, one for the colon, and the length
    of the serialized content, and list() has one more name, the text
    of [f] before its first colon.  Nothing is said of the place of
    that name in the list. *)
Theorem fresh_write_accounting d o f c (allowOverwrite : bool) :
  owned d -> has f o = false -> serializable c ->
  exists o' n names names',
    Directory.write d f c allowOverwrite o = (Return (Fulfilled tt), o') /\
    Directory.fileSize f o' = (Return (String.length (JSON_stringify c)), o') /\
    Directory.size o = (Return n, o) /\
    Directory.size o' =
      (Return (n + (String.length f + 1 + String.length (JSON_stringify c))), o') /\
    Directory.list_ o = (Return names, o) /\
    Directory.list_ o' = (Return names', o') /\
    Permutation names' (before_colon f :: names).
Proof.
  intros Hd Hf Hc. apply has_false in Hf as Hf'.
  destruct (write_fresh d f c allowOverwrite o Hd Hf') as (o' & Hw & Hp).
  assert (Hp0 : participants o = (participants o ++ [])%list)
    by now rewrite app_nil_r.
  destruct (read_inserted f c o o' _ [] Hp0 Hp Hf Hc) as [_ Hrd].
  exists o'. do 3 eexists. split; [exact Hw|].
  split; [|split; [|split; [|split; [|split]]]].
  - now rewrite fileSize_run, Hrd.
  - reflexivity.
  - unfold Directory.size, getParticipants. unfold_eff.
    rewrite Hp, total_length_snoc, !length_append.
    do 2 f_equal. cbn [String.length]. lia.
  - reflexivity.
  - reflexivity.
  - rewrite Hp, map_app. cbn [map]. rewrite before_colon_key.
    symmetry. apply Permutation_cons_append.
Qed.

End DirectoryAccounting.

(** Every file that exists is listed.  When exists(f) is true, list()
    contains the text of [f] before its first colon: [f] itself when
    the name has no colon. *)
Theorem existing_file_is_listed (f : string) (o : ScoreboardObjective) :
  has f o = true ->
  exists names,
    Directory.list_ o = (Return names, o) /\
    In (before_colon f) names /\
    (includes f ":" = false -> In f names).
Proof.
  intros [i Hi]%has_true. eexists. split; [reflexivity|].
  apply find_some in Hi as [Hin [text ->]%startsWith_inv].
  assert (Hb : In (before_colon f) (map before_colon (participants o))).
  { rewrite append_assoc in Hin. apply in_map with (f := before_colon) in Hin.
    now rewrite before_colon_key in Hin. }
  split; [exact Hb|]. intros Hplain. now rewrite <- (before_colon_plain f Hplain) at 1.
Qed.

Lemma copy_duplicates_witness :
  let o := ledger "ACM:FS.ME_PACK.LOGS" [("a:true", 0%Z); ("b:null", 1%Z)] in
  Directory.copy (any := literal) mine "c" "d" o = (Throw (NotFound "c"), o) /\
  Directory.copy (any := literal) mine "a" "b" o = (Throw (AlreadyExists "b"), o) /\
  exists o',
    Directory.copy (any := literal) mine "a" "c" o = (Return tt, o') /\
    Permutation (participants o') ["c:true"; "a:true"; "b:null"] /\
    Directory.read "a" o' = (Return JTrue, o') /\
    Directory.read "c" o' = (Return JTrue, o').
Proof.
  pose (o := ledger "ACM:FS.ME_PACK.LOGS" [("a:true", 0%Z); ("b:null", 1%Z)]).
  split; [|split].
  - exact (proj1 (copy_duplicates mine o "c" "d" eq_refl) eq_refl).
  - exact (proj1 (proj2 (copy_duplicates mine o "a" "b" eq_refl))
                 eq_refl eq_refl).
  - exact (proj2 (proj2 (copy_duplicates mine o "a" "c" eq_refl))
                 JTrue eq_refl eq_refl eq_refl eq_refl).
Defined.

Lemma move_like_rename_witness :
  let o := ledger "ACM:FS.ME_PACK.LOGS" [("a:true", 0%Z); ("b:null", 1%Z)] in
  exists o',
    Directory.move (any := literal) mine "a" "c" o = (Return tt, o') /\
    Directory.exists_ "a" o' = (Return false, o') /\
    Directory.exists_ "c" o' = (Return true, o') /\
    Directory.read "c" o' = (Return JTrue, o') /\
    participants o' =
      participants (snd (Directory.rename (any := literal) mine "a" "c" o)).
Proof.
  exact (move_like_rename mine
           (ledger "ACM:FS.ME_PACK.LOGS" [("a:true", 0%Z); ("b:null", 1%Z)])
           "a" "c" "a:true" JTrue eq_refl eq_refl eq_refl eq_refl eq_refl eq_refl).
Defined.

Lemma write_keeps_existing_witness :
  let o := ledger "ACM:FS.ME_PACK.LOGS" [("a:true", 0%Z); ("b:null", 1%Z)] in
  exists promise o',
    Directory.write mine "a" JFalse true o = (Return promise, o') /\
    In "a:true" (participants o') /\
    Directory.exists_ "b" o' = (Return true, o') /\
    fst (Directory.read (any := literal) "b" o') =
    fst (Directory.read (any := literal) "b" o).
Proof.
  pose (o := ledger "ACM:FS.ME_PACK.LOGS" [("a:true", 0%Z); ("b:null", 1%Z)]).
  destruct (write_keeps_existing mine o "a" "b" JFalse true eq_refl)
    as (promise & o' & Hw & Hmem & Hex & Hrd).
  exists promise, o'. split; [exact Hw|]. split; [|split].
  - apply Hmem. now left.
  - exact Hex.
  - apply Hrd. reflexivity.
Defined.

Lemma fresh_write_accounting_witness :
  let o := ledger "ACM:FS.ME_PACK.LOGS" [("a:true", 0%Z)] in
  exists o' n names names',
    Directory.write mine "c" JFalse true o = (Return (Fulfilled tt), o') /\
    Directory.fileSize (any := literal) "c" o' = (Return 5, o') /\
    Directory.size o = (Return n, o) /\
    Directory.size o' = (Return (n + (1 + 1 + 5)), o') /\
    Directory.list_ o = (Return names, o) /\
    Directory.list_ o' = (Return names', o') /\
    Permutation names' ("c" :: names).
Proof.
  exact (fresh_write_accounting mine
           (ledger "ACM:FS.ME_PACK.LOGS" [("a:true", 0%Z)])
           "c" JFalse true eq_refl eq_refl eq_refl).
Defined.

Lemma existing_file_is_listed_witness :
  exists names,
    Directory.list_ (ledger "ACM:FS.ME_PACK.LOGS" [("a:true", 0%Z); ("b:c:null", 1%Z)])
      = (Return names,
         ledger "ACM:FS.ME_PACK.LOGS" [("a:true", 0%Z); ("b:c:null", 1%Z)]) /\
    In "a" names /\ In (before_colon "b:c") names.
Proof.
  pose (o := ledger "ACM:FS.ME_PACK.LOGS" [("a:true", 0%Z); ("b:c:null", 1%Z)]).
  destruct (existing_file_is_listed "a" o eq_refl) as (names & Hl & _ & Ha).
  destruct (existing_file_is_listed "b:c" o eq_refl) as (names' & Hl' & Hb & _).
  exists names. split; [exact Hl|]. split; [exact (Ha eq_refl)|].
  rewrite Hl in Hl'. injection Hl' as <-. exact Hb.
Defined.

(** ** The registry: errors, creation, names *)

Lemma includes_intro (x s y : string) : includes (x +:+ s +:+ y) s = true.
Proof.
  induction x as [|a x IH].
  - rewrite append_nil.
    destruct (s +:+ y) eqn:E; cbn [includes]; rewrite <- E, startsWith_app;
      reflexivity.
  - rewrite append_cons. cbn [includes]. rewrite IH. apply orb_true_r.
Qed.

Lemma includes_inv (s t : string) :
  includes s t = true -> exists x y, s = x +:+ t +:+ y.
Proof.
  induction s as [|a s IH]; cbn [includes].
  - rewrite orb_false_r. intros [y ->]%startsWith_inv. now exists "", y.
  - intros [Hs|Hs]%orb_true_iff.
    + apply startsWith_inv in Hs as [y ->]. now exists "", y.
    + destruct (IH Hs) as (x & y & ->). now exists (String a x), y.
Qed.

Lemma append_empty (s : string) : s +:+ "" = s.
Proof.
  induction s as [|a s IH]; [reflexivity|].
  rewrite append_cons. now f_equal.
Qed.

(** A text that occurs in a part of a string occurs in the string. *)
Lemma includes_inside (x s y t : string) :
  includes s t = true -> includes (x +:+ s +:+ y) t = true.
Proof.
  intros (x' & y' & ->)%includes_inv.
  replace (x +:+ (x' +:+ t +:+ y') +:+ y) with ((x +:+ x') +:+ t +:+ (y' +:+ y))
    by now rewrite !append_assoc.
  apply includes_intro.
Qed.

Lemma upper_idempotent (a : ascii) : upper (upper a) = upper a.
Proof. destruct a as [[] [] [] [] [] [] [] []]; reflexivity. Qed.

Lemma toUpperCase_idempotent (s : string) :
  toUpperCase (toUpperCase s) = toUpperCase s.
Proof.
  induction s as [|a s IH]; [reflexivity|].
  cbn [toUpperCase]. now rewrite upper_idempotent, IH.
Qed.

Section RegistryMore.
Implicit Types (w : World) (a : AddonData) (name : string).

(** The ledger [new] makes, the line it sends to [console.warn], and
    what it answers in each case. *)
Lemma new_run w a name (ignoreWarn : bool) :
  AcmLib_addonData w = Some a ->
  FsDir.new name ignoreWarn w =
  match scoreboard w !! formatted a name with
  | Some db =>
      (Return (directory_over a db),
       if ignoreWarn then w
       else {| scoreboard := scoreboard w;
               AcmLib_addonData := AcmLib_addonData w;
               warnings := warnings w ++
                 ["Directory " +:+ formatted a name +:+ " already exists"] |})
  | None =>
      let db := {| id := formatted a name; displayName := formatted a name;
                   scores := [] |} in
      (Return (directory_over a db),
       with_scoreboard w (<[formatted a name := db]> (scoreboard w)))
  end.
Proof.
  intros Ha. destruct (scoreboard w !! formatted a name) as [db|] eqn:Hdb.
  - unfold FsDir.new.
    unfold mbind, mret, Eff_bind, Eff_ret, bind, ret.
    rewrite (format_run w a name Ha). cbv beta iota.
    rewrite (isValid_run w a name Ha), Hdb. cbv beta iota.
    rewrite bool_decide_eq_true_2 by discriminate.
    destruct ignoreWarn; cbn [negb]; unfold console_warn; cbv beta iota.
    + now rewrite (get_run w a name Ha), Hdb.
    + match goal with |- context [FsDir.get name ?s] =>
        rewrite (get_run s a name Ha) end.
      cbn [scoreboard]. now rewrite Hdb.
  - now apply new_missing.
Qed.

Lemma delete_dir_run w a name :
  AcmLib_addonData w = Some a ->
  FsDir.delete name w =
  match scoreboard w !! formatted a name with
  | Some _ =>
      (Return tt,
       with_scoreboard w (base.delete (formatted a name) (scoreboard w)))
  | None => (Throw (NotFound name), w)
  end.
Proof.
  intros Ha. unfold FsDir.delete.
  unfold mbind, mret, Eff_bind, Eff_ret, bind, ret, throw.
  rewrite (get_run w a name Ha).
  destruct (scoreboard w !! formatted a name) as [db|];
    cbn [fmap option_fmap option_map]; cbv beta iota; [|reflexivity].
  now rewrite (format_run w a name Ha).
Qed.

(** Before the addon is initialized the registry does nothing: every
    one of its operations throws "Addon data not found" and leaves the
    world as it is. *)
Theorem registry_needs_addon w name (ignoreWarn : bool) :
  AcmLib_addonData w = None ->
  FsDir.isValid name w = (Throw Uninitialized, w) /\
  FsDir.get name w = (Throw Uninitialized, w) /\
  FsDir.new name ignoreWarn w = (Throw Uninitialized, w) /\
  FsDir.delete name w = (Throw Uninitialized, w).
Proof.
  intros Ha.
  unfold FsDir.isValid, FsDir.get, FsDir.new, FsDir.delete, FsDir.get,
    FsDir.format, FsSys._format, FsSys.getLocalId, get_addonData.
  unfold_eff. now rewrite Ha.
Qed.

(** Creating a directory.  With the addon initialized and no ledger
    under format(name), new(name) makes an empty ledger whose id and
    display name are format(name), changes no other ledger, warns
    nothing, and returns a Directory that passes the ownership test;
    isValid(name) and get(name) then find it. *)
Theorem new_makes_owned_directory w a name (ignoreWarn : bool) :
  AcmLib_addonData w = Some a ->
  scoreboard w !! formatted a name = None ->
  exists dir w',
    FsDir.new name ignoreWarn w = (Return dir, w') /\
    owned dir /\
    Directory.dbId dir = formatted a name /\
    scoreboard w' !! formatted a name =
      Some {| id := formatted a name; displayName := formatted a name;
              scores := [] |} /\
    (forall k, k <> formatted a name -> scoreboard w' !! k = scoreboard w !! k) /\
    warnings w' = warnings w /\
    FsDir.isValid name w' = (Return true, w') /\
    FsDir.get name w' = (Return (Some dir), w').
Proof.
  intros Ha Hdb. rewrite (new_run w a name ignoreWarn Ha), Hdb.
  do 2 eexists. split; [reflexivity|].
  set (w' := with_scoreboard w _).
  assert (Hw' : scoreboard w' !! formatted a name =
                Some {| id := formatted a name; displayName := formatted a name;
                        scores := [] |}) by apply lookup_insert_eq.
  split; [|split; [reflexivity|split; [exact Hw'|split; [|split; [reflexivity|]]]]].
  - unfold owned, directory_over, formatted. cbn.
    rewrite <- (append_assoc ROOT_DIR "."). apply includes_intro.
  - intros k Hk. now apply lookup_insert_ne.
  - split.
    + rewrite (isValid_run w' a name Ha), Hw'.
      now rewrite bool_decide_eq_true_2.
    + now rewrite (get_run w' a name Ha), Hw'.
Qed.

(** Names are matched without regard to case: two names with the same
    upper-case form are the same directory for isValid, get and new;
    in particular a name and its upper-case form. *)
Theorem names_ignore_case w name name' (ignoreWarn : bool) :
  toUpperCase name = toUpperCase name' ->
  FsDir.isValid name w = FsDir.isValid name' w /\
  FsDir.get name w = FsDir.get name' w /\
  FsDir.new name ignoreWarn w = FsDir.new name' ignoreWarn w /\
  FsDir.get name w = FsDir.get (toUpperCase name) w.
Proof.
  intros Hn. destruct (AcmLib_addonData w) as [a|] eqn:Ha.
  - assert (Hf : formatted a name = formatted a name')
      by (unfold formatted; now rewrite Hn).
    assert (Hu : formatted a (toUpperCase name) = formatted a name)
      by (unfold formatted; now rewrite toUpperCase_idempotent).
    rewrite !(isValid_run w a _ Ha), !(get_run w a _ Ha),
      !(new_run w a _ ignoreWarn Ha), Hu, Hf. repeat split.
  - unfold FsDir.isValid, FsDir.get, FsDir.new, FsDir.get,
      FsDir.format, FsSys._format, FsSys.getLocalId, get_addonData.
    unfold_eff. now rewrite Ha.
Qed.

End RegistryMore.

Section RegistryDelete.
Implicit Types (w : World) (a : AddonData) (name : string).

(** Deleting a directory.  With the addon initialized, delete(name)
    fails with NotFound and changes nothing when no ledger is under
    format(name); otherwise it removes that ledger, whatever it holds,
    and no other ledger, and isValid(name) is false afterwards. *)
Theorem delete_directory w a name :
  AcmLib_addonData w = Some a ->
  (scoreboard w !! formatted a name = None ->
     FsDir.delete name w = (Throw (NotFound name), w)) /\
  (forall db, scoreboard w !! formatted a name = Some db ->
     exists w',
       FsDir.delete name w = (Return tt, w') /\
       scoreboard w' !! formatted a name = None /\
       (forall k, k <> formatted a name ->
          scoreboard w' !! k = scoreboard w !! k) /\
       FsDir.isValid name w' = (Return false, w')).
Proof.
  intros Ha. rewrite (delete_dir_run w a name Ha). split.
  - now intros ->.
  - intros db ->. eexists. split; [reflexivity|].
    set (w' := with_scoreboard w _).
    assert (Hw' : scoreboard w' !! formatted a name = None)
      by apply lookup_delete_eq.
    split; [exact Hw'|]. split.
    + intros k Hk. now apply lookup_delete_ne.
    + rewrite (isValid_run w' a name Ha), Hw'.
      now rewrite bool_decide_eq_false_2 by tauto.
Qed.

(** The ownership test is a substring test.  A Directory object made
    by the addon [a] over a ledger that the addon [a'] created for
    [name] passes isOwner as soon as the upper-case identifier of [a]
    occurs in the upper-case identifier of [a'] or in the upper-case
    name. *)
Theorem ownership_is_by_substring w a a' name (db o : ScoreboardObjective) :
  AcmLib_addonData w = Some a ->
  displayName db = formatted a' name ->
  includes (toUpperCase (localId_of a')) (toUpperCase (localId_of a)) = true \/
  includes (toUpperCase name) (toUpperCase (localId_of a)) = true ->
  exists dir,
    Directory.create db w = (Return dir, w) /\
    Directory.dbId dir = formatted a' name /\
    Directory.isOwner dir o = (Return true, o).
Proof.
  intros Ha Hdb Hin. exists (directory_over a db).
  split; [now apply create_run|]. split; [exact Hdb|].
  unfold Directory.isOwner, directory_over. cbn [Directory.dbId Directory.localId].
  rewrite Hdb.
  assert (Hown : includes (formatted a' name) (toUpperCase (localId_of a)) = true).
  { unfold formatted. destruct Hin as [Hin|Hin].
    - rewrite <- (append_assoc ROOT_DIR "."). now apply includes_inside.
    - replace (ROOT_DIR +:+ "." +:+ toUpperCase (localId_of a') +:+ "." +:+
               toUpperCase name)
        with ((ROOT_DIR +:+ "." +:+ toUpperCase (localId_of a') +:+ ".") +:+
              toUpperCase name +:+ "")
        by (now rewrite append_empty, !append_assoc).
      now apply includes_inside. }
  now rewrite Hown.
Qed.

End RegistryDelete.

Lemma registry_needs_addon_witness :
  FsDir.isValid "logs" blank_world = (Throw Uninitialized, blank_world) /\
  FsDir.get "logs" blank_world = (Throw Uninitialized, blank_world) /\
  FsDir.new "logs" false blank_world = (Throw Uninitialized, blank_world) /\
  FsDir.delete "logs" blank_world = (Throw Uninitialized, blank_world).
Proof. exact (registry_needs_addon blank_world "logs" false eq_refl). Defined.

Lemma new_makes_owned_directory_witness :
  exists dir w',
    FsDir.new "logs" false (world_of []) = (Return dir, w') /\
    owned dir /\
    Directory.dbId dir = "ACM:FS.ME_PACK.LOGS" /\
    scoreboard w' !! "ACM:FS.ME_PACK.LOGS" =
      Some (ledger "ACM:FS.ME_PACK.LOGS" []) /\
    (forall k, k <> "ACM:FS.ME_PACK.LOGS" ->
       scoreboard w' !! k = scoreboard (world_of []) !! k) /\
    warnings w' = [] /\
    FsDir.isValid "logs" w' = (Return true, w') /\
    FsDir.get "logs" w' = (Return (Some dir), w').
Proof.
  exact (new_makes_owned_directory (world_of []) me_pack "logs" false
           eq_refl eq_refl).
Defined.

Lemma names_ignore_case_witness :
  let w := world_of [("ACM:FS.ME_PACK.LOGS", ledger "ACM:FS.ME_PACK.LOGS" [])] in
  FsDir.isValid "Logs" w = FsDir.isValid "lOGS" w /\
  FsDir.get "Logs" w = FsDir.get "lOGS" w /\
  FsDir.new "Logs" true w = FsDir.new "lOGS" true w /\
  FsDir.get "Logs" w = FsDir.get (toUpperCase "Logs") w.
Proof.
  exact (names_ignore_case
           (world_of [("ACM:FS.ME_PACK.LOGS", ledger "ACM:FS.ME_PACK.LOGS" [])])
           "Logs" "lOGS" true eq_refl).
Defined.

Lemma delete_directory_witness :
  let db := ledger "ACM:FS.ME_PACK.LOGS" [("a:true", 0%Z)] in
  let w := world_of [("ACM:FS.ME_PACK.LOGS", db)] in
  FsDir.delete "cache" w = (Throw (NotFound "cache"), w) /\
  exists w',
    FsDir.delete "logs" w = (Return tt, w') /\
    scoreboard w' !! "ACM:FS.ME_PACK.LOGS" = None /\
    (forall k, k <> "ACM:FS.ME_PACK.LOGS" ->
       scoreboard w' !! k = scoreboard w !! k) /\
    FsDir.isValid "logs" w' = (Return false, w').
Proof.
  pose (db := ledger "ACM:FS.ME_PACK.LOGS" [("a:true", 0%Z)]).
  pose (w := world_of [("ACM:FS.ME_PACK.LOGS", db)]).
  split.
  - apply (proj1 (delete_directory w me_pack "cache" eq_refl)).
    vm_compute. reflexivity.
  - apply (proj2 (delete_directory w me_pack "logs" eq_refl) db).
    vm_compute. reflexivity.
Defined.

Lemma ownership_is_by_substring_witness :
  let w := {| scoreboard := ∅; AcmLib_addonData := Some e_pack; warnings := [] |} in
  let db := ledger "ACM:FS.ME_PACK.LOGS" [] in
  exists dir,
    Directory.create db w = (Return dir, w) /\
    Directory.dbId dir = "ACM:FS.ME_PACK.LOGS" /\
    Directory.isOwner dir db = (Return true, db).
Proof.
  exact (ownership_is_by_substring
           {| scoreboard := ∅; AcmLib_addonData := Some e_pack; warnings := [] |}
           e_pack me_pack "logs" (ledger "ACM:FS.ME_PACK.LOGS" [])
           (ledger "ACM:FS.ME_PACK.LOGS" []) eq_refl eq_refl
           (or_introl eq_refl)).
Defined.

(** ** The settings loader: objects and edge cases *)

Lemma set_property_eq (m : gmap string Value) (k : string) (v : Value) :
  k <> "__proto__" -> set_property m k v !! k = Some v.
Proof.
  intros Hk. unfold set_property. apply String.eqb_neq in Hk.
  now rewrite Hk, lookup_insert_eq.
Qed.

Lemma set_property_ne (m : gmap string Value) (k k' : string) (v : Value) :
  k <> k' -> set_property m k v !! k' = m !! k'.
Proof.
  intros Hk. unfold set_property. destruct (String.eqb k "__proto__");
    [reflexivity|now apply lookup_insert_ne].
Qed.

(** No assignment makes [__proto__] an own property. *)
Lemma set_property_proto (m : gmap string Value) (k : string) (v : Value) :
  set_property m k v !! "__proto__" = m !! "__proto__".
Proof.
  unfold set_property. destruct (String.eqb k "__proto__") eqn:E;
    [reflexivity|].
  apply String.eqb_neq in E. now apply lookup_insert_ne.
Qed.

Lemma collect_snoc (l : list SettingsWidget) (s : SettingsWidget) :
  AcmLibrary.collect (l ++ [s]) =
  set_property (AcmLibrary.collect l) (widget_label s)
               (AcmLibrary.processSetting s).
Proof. unfold AcmLibrary.collect. now rewrite fold_left_app. Qed.

(** The object made from a settings array.  It never has the own
    property [__proto__], also when a setting has that label; its other
    own properties are the labels in the array, and where a label
    occurs several times the last setting with that label gives the
    value. *)
Theorem collect_last_wins (l : list SettingsWidget) :
  AcmLibrary.collect l !! "__proto__" = None /\
  (forall k, k <> "__proto__" ->
     (AcmLibrary.collect l !! k = None <-> ~ In k (map widget_label l))) /\
  (forall before s after,
     l = (before ++ s :: after)%list ->
     widget_label s <> "__proto__" ->
     (forall t, In t after -> widget_label t <> widget_label s) ->
     AcmLibrary.collect l !! widget_label s =
       Some (AcmLibrary.processSetting s)).
Proof.
  split; [|split].
  - induction l as [|s l IH] using rev_ind; [apply lookup_empty|].
    now rewrite collect_snoc, set_property_proto.
  - intros k Hk. induction l as [|s l IH] using rev_ind.
    + split; [tauto|intros _; apply lookup_empty].
    + rewrite collect_snoc, map_app, in_app_iff.
      destruct (decide (widget_label s = k)) as [<-|Hne].
      * rewrite set_property_eq by exact Hk. split; [discriminate|].
        intros Hn. destruct Hn. right. now left.
      * rewrite set_property_ne by exact Hne. rewrite IH.
        cbn [map In]. tauto.
  - intros before s after -> Hs Hafter.
    induction after as [|t after IH] using rev_ind.
    + now rewrite collect_snoc, set_property_eq.
    + replace (before ++ s :: after ++ [t])%list
        with ((before ++ s :: after) ++ [t])%list
        by now rewrite <- app_assoc.
      rewrite collect_snoc, set_property_ne.
      * apply IH. intros u Hu. apply Hafter, in_or_app. now left.
      * apply Hafter, in_or_app. right. now left.
Qed.

Section SettingsMore.
Import AcmLibrary.
Variable parse : string -> option (list SettingsWidget).
Implicit Types (w : World) (a : AddonData).

Lemma upper_text_empty (t : string) : toUpperCase t = "" -> t = "".
Proof. now destruct t. Qed.

(** The ledger of a category is chosen by the upper-case form of its
    title: with the addon initialized, two categories whose titles
    agree up to case load the same object, and a category with an
    empty title loads what the flat loader loads. *)
Theorem category_ledger_by_title w a (c1 c2 : SettingsCatagory) :
  AcmLib_addonData w = Some a ->
  (toUpperCase (title c1) = toUpperCase (title c2) ->
     processCategorySettings parse c1 w = processCategorySettings parse c2 w) /\
  (title c1 = "" ->
     processCategorySettings parse c1 w = processFlatSettings parse w).
Proof.
  intros Ha. rewrite !(category_run parse w a _ Ha), (flat_run parse w a Ha).
  split.
  - intros Ht.
    destruct (title c1) as [|x1 t1] eqn:E1, (title c2) as [|x2 t2] eqn:E2;
      try reflexivity; try discriminate.
    unfold settings_ledger. now rewrite Ht.
  - now intros ->.
Qed.

Lemma forEach_run w a (categories : list SettingsCatagory)
    (settingsObject : gmap string Value) :
  AcmLib_addonData w = Some a ->
  forEach_category parse categories settingsObject w =
  (each_category parse w a categories settingsObject, w).
Proof.
  intros Ha. revert settingsObject.
  induction categories as [|c rest IH]; intros m; [reflexivity|].
  cbn [forEach_category each_category].
  unfold mbind, Eff_bind, bind.
  rewrite (category_run parse w a c Ha). fold (category_object parse w a c).
  destruct (category_object parse w a c); [apply IH|reflexivity].
Qed.

(** loadSettingsData at its edges.  It never changes the world; it
    answers the empty object when the addon is not initialized; it
    throws a TypeError when the addon has no [settings]; and an empty
    array of categories is loaded as flat settings. *)
Theorem load_settings_edges w :
  snd (loadSettingsData parse w) = w /\
  (AcmLib_addonData w = None -> loadSettingsData parse w = (Return ∅, w)) /\
  (forall a, AcmLib_addonData w = Some a -> settings a = None ->
     loadSettingsData parse w = (Throw TypeError, w)) /\
  (forall a, AcmLib_addonData w = Some a -> settings a = Some (inr []) ->
     loadSettingsData parse w =
     match processFlatSettings parse w with
     | (Return flat, w') => (Return (flat ∪ ∅), w')
     | (Throw e, w') => (Throw e, w')
     end).
Proof.
  assert (Hrun : forall a, AcmLib_addonData w = Some a ->
            loadSettingsData parse w =
            match settings a with
            | None => (Throw TypeError, w)
            | Some (inr (c :: rest)) =>
                (each_category parse w a (c :: rest) ∅, w)
            | _ => match processFlatSettings parse w with
                   | (Return flat, w') => (Return (flat ∪ ∅), w')
                   | (Throw e, w') => (Throw e, w')
                   end
            end).
  { intros a Ha. unfold loadSettingsData, get_addonData, isSettingsCatagory.
    unfold mbind, mret, Eff_bind, Eff_ret, bind, ret, throw.
    rewrite Ha. cbv beta iota.
    destruct (settings a) as [[ws|[|c rest]]|]; cbv beta iota;
      rewrite ?bool_decide_eq_false_2 by tauto;
      rewrite ?bool_decide_eq_true_2 by discriminate;
      try (now destruct (processFlatSettings parse w) as [[flat|e] w']);
      try reflexivity.
    apply (forEach_run w a (c :: rest) ∅ Ha). }
  split; [|split; [|split]].
  - destruct (AcmLib_addonData w) as [a|] eqn:Ha.
    + rewrite (Hrun a eq_refl).
      destruct (settings a) as [[ws|[|c rest]]|]; try reflexivity;
        rewrite (flat_run parse w a Ha);
        now destruct (scoreboard w !! _) as [db|]; [destruct (blob_of parse db)|].
    + unfold loadSettingsData, get_addonData. unfold_eff. now rewrite Ha.
  - intros Ha. unfold loadSettingsData, get_addonData. unfold_eff.
    now rewrite Ha.
  - intros a Ha Hs. now rewrite (Hrun a Ha), Hs.
  - intros a Ha Hs. now rewrite (Hrun a Ha), Hs.
Qed.

Lemma each_missing w a (categories : list SettingsCatagory)
    (m : gmap string Value) :
  (forall c, In c categories ->
     scoreboard w !! settings_ledger a (Some (title c)) = None) ->
  exists m',
    each_category parse w a categories m = Return m' /\
    m' !! "__proto__" = m !! "__proto__" /\
    (forall t, t <> "__proto__" -> In t (map title categories) ->
       m' !! t = Some (VObject ∅)) /\
    (forall t, ~ In t (map title categories) -> m' !! t = m !! t).
Proof.
  revert m. induction categories as [|c rest IH]; intros m Hmiss.
  - exists m. split; [reflexivity|]. split; [reflexivity|].
    split; [intros t _ []|reflexivity].
  - cbn [each_category]. unfold category_object.
    rewrite (Hmiss c) by now left.
    destruct (IH (set_property m (title c) (VObject ∅)))
      as (m' & -> & Hproto & Hin & Hout).
    { intros c' Hc'. apply Hmiss. now right. }
    exists m'. split; [reflexivity|]. cbn [map]. split; [|split].
    + now rewrite Hproto, set_property_proto.
    + intros t Hp Ht.
      destruct (in_dec string_dec t (map title rest)) as [Hr|Hr];
        [now apply Hin|].
      destruct Ht as [<-|Ht]; [|tauto].
      now rewrite (Hout _ Hr), set_property_eq.
    + intros t Ht. rewrite Hout by (intros ?; apply Ht; now right).
      apply set_property_ne. intros Heq. apply Ht. now left.
Qed.

(** Settings before anything was saved.  With the addon initialized
    with a non-empty array of categories, none of which has a settings
    ledger yet, loadSettingsData returns an object whose own
    properties are the titles of the categories other than
    [__proto__], each holding the empty object; [__proto__] is never an
    own property of it, also when a category has that title. *)
Theorem load_without_ledgers w a (c : SettingsCatagory)
    (rest : list SettingsCatagory) :
  AcmLib_addonData w = Some a ->
  settings a = Some (inr (c :: rest)) ->
  (forall c', In c' (c :: rest) ->
     scoreboard w !! settings_ledger a (Some (title c')) = None) ->
  exists m,
    loadSettingsData parse w = (Return m, w) /\
    m !! "__proto__" = None /\
    (forall t, t <> "__proto__" -> In t (map title (c :: rest)) ->
       m !! t = Some (VObject ∅)) /\
    (forall t, ~ In t (map title (c :: rest)) -> m !! t = None).
Proof.
  intros Ha Hs Hmiss.
  destruct (each_missing w a (c :: rest) ∅ Hmiss)
    as (m & Hm & Hproto & Hin & Hout).
  exists m. split; [|split; [|split; [exact Hin|]]].
  - unfold loadSettingsData, get_addonData, isSettingsCatagory.
    unfold mbind, mret, Eff_bind, Eff_ret, bind, ret, throw.
    rewrite Ha, Hs. cbv beta iota.
    rewrite bool_decide_eq_true_2 by discriminate.
    now rewrite (forEach_run w a (c :: rest) ∅ Ha), Hm.
  - now rewrite Hproto, lookup_empty.
  - intros t Ht. now rewrite (Hout t Ht), lookup_empty.
Qed.

End SettingsMore.

Lemma category_ledger_by_title_witness :
  let w := world_of [("ACM:ME_PACK_AUDIO",
                      ledger "ACM:ME_PACK_AUDIO" [(sound_blob, 0%Z)])] in
  let audio t := {| title := t; settings_of := []; category_iconPath := None |} in
  AcmLibrary.processCategorySettings parse_known (audio "Audio") w =
  AcmLibrary.processCategorySettings parse_known (audio "AUDIO") w /\
  AcmLibrary.processCategorySettings parse_known (audio "") w =
  AcmLibrary.processFlatSettings parse_known w.
Proof.
  pose (w := world_of [("ACM:ME_PACK_AUDIO",
                        ledger "ACM:ME_PACK_AUDIO" [(sound_blob, 0%Z)])]).
  pose (audio := fun t => {| title := t; settings_of := [];
                             category_iconPath := None |}).
  split.
  - exact (proj1 (category_ledger_by_title parse_known w me_pack
                    (audio "Audio") (audio "AUDIO") eq_refl) eq_refl).
  - exact (proj2 (category_ledger_by_title parse_known w me_pack
                    (audio "") (audio "") eq_refl) eq_refl).
Defined.

Lemma load_without_ledgers_witness :
  let w := {| scoreboard := ∅; AcmLib_addonData := Some proto_categories;
              warnings := [] |} in
  exists m,
    AcmLibrary.loadSettingsData parse_known w = (Return m, w) /\
    m !! "Audio" = Some (VObject ∅) /\
    m !! "__proto__" = None /\
    m !! "Other" = None.
Proof.
  pose (w := {| scoreboard := ∅; AcmLib_addonData := Some proto_categories;
                warnings := [] |}).
  destruct (load_without_ledgers parse_known w proto_categories
              {| title := "Audio"; settings_of := []; category_iconPath := None |}
              [ {| title := "__proto__"; settings_of := [];
                   category_iconPath := None |} ]
              eq_refl eq_refl (fun c' _ => lookup_empty _))
    as (m & Hm & Hproto & Hin & Hout).
  exists m. split; [exact Hm|]. split; [|split].
  - apply Hin; [discriminate|now left].
  - exact Hproto.
  - apply Hout. intros [E|[E|[]]]; discriminate E.
Defined.

Lemma collect_last_wins_witness :
  let l := [ToggleWidget "sound" (Some false);
            ToggleWidget "__proto__" (Some true);
            ToggleWidget "sound" (Some true)] in
  AcmLibrary.collect l !! "__proto__" = None /\
  AcmLibrary.collect l !! "sound" = Some (VBool true) /\
  AcmLibrary.collect l !! "music" = None.
Proof.
  pose (l := [ToggleWidget "sound" (Some false);
              ToggleWidget "__proto__" (Some true);
              ToggleWidget "sound" (Some true)]).
  destruct (collect_last_wins l) as (Hproto & Hkeys & Hlast).
  split; [exact Hproto|]. split.
  - apply (Hlast [ToggleWidget "sound" (Some false);
                  ToggleWidget "__proto__" (Some true)]
                 (ToggleWidget "sound" (Some true)) []);
      [reflexivity|discriminate|intros t []].
  - apply Hkeys; [discriminate|].
    intros [E|[E|[E|[]]]]; discriminate E.
Defined.

(** ** The singleton and the host events *)

(** On ASCII text, lower-casing forgets an upper-casing. *)
Lemma lower_upper (a : ascii) :
  (nat_of_ascii a <? 128)%nat = true -> lower (upper a) = lower a.
Proof. destruct a as [[] [] [] [] [] [] [] []]; intros _; reflexivity. Qed.

Lemma upper_dot (a : ascii) : Ascii.eqb (upper a) "." = Ascii.eqb a ".".
Proof. destruct a as [[] [] [] [] [] [] [] []]; reflexivity. Qed.

Lemma toLowerCase_upper (s : string) :
  ascii_only s = true -> toLowerCase (toUpperCase s) = toLowerCase s.
Proof.
  induction s as [|a s IH]; [reflexivity|].
  cbn [ascii_only]. intros [Ha Hs]%andb_true_iff.
  cbn [toUpperCase toLowerCase]. now rewrite (lower_upper a Ha), (IH Hs).
Qed.

(** The parts of an ASCII text between its dots are ASCII texts. *)
Lemma split_dot_ascii (s : string) :
  ascii_only s = true -> ascii_only (hd "" (split_dot s)) = true.
Proof.
  induction s as [|a s IH]; [reflexivity|].
  cbn [ascii_only split_dot]. intros [Ha Hs]%andb_true_iff.
  destruct (Ascii.eqb a "."); [reflexivity|].
  specialize (IH Hs). destruct (split_dot s) as [|first rest];
    cbn [hd ascii_only] in *; rewrite Ha; [reflexivity|exact IH].
Qed.

Lemma toUpperCase_append (s t : string) :
  toUpperCase (s +:+ t) = toUpperCase s +:+ toUpperCase t.
Proof.
  induction s as [|a s IH]; [reflexivity|].
  rewrite append_cons. cbn [toUpperCase]. now rewrite IH, append_cons.
Qed.

Lemma split_dot_upper (s : string) :
  split_dot (toUpperCase s) = map toUpperCase (split_dot s).
Proof.
  induction s as [|a s IH]; [reflexivity|].
  cbn [toUpperCase split_dot]. rewrite upper_dot, IH.
  destruct (Ascii.eqb a "."); [reflexivity|].
  now destruct (split_dot s).
Qed.

Lemma split_dot_first (s : string) :
  exists rest, split_dot s = hd "" (split_dot s) :: rest.
Proof.
  destruct s as [|a s]; [now exists []|].
  cbn [split_dot]. destruct (Ascii.eqb a "."); [eauto|].
  destruct (split_dot s); eauto.
Qed.

(** A text without dot, then a dot, then any text. *)
Lemma split_dot_append (s t : string) :
  includes s "." = false -> split_dot (s +:+ "." +:+ t) = s :: split_dot t.
Proof.
  induction s as [|a s IH]; [reflexivity|].
  cbn [includes startsWith]. rewrite andb_true_r, orb_false_iff.
  intros [Ha Hs]. rewrite append_cons. cbn [split_dot].
  rewrite Ascii.eqb_sym, Ha. now rewrite (IH Hs).
Qed.

Lemma upper_keeps_dots (s : string) :
  includes s "." = false -> includes (toUpperCase s) "." = false.
Proof.
  induction s as [|a s IH]; [reflexivity|].
  cbn [toUpperCase includes startsWith]. rewrite !andb_true_r, !orb_false_iff.
  intros [Ha Hs]. split; [|now apply IH].
  now rewrite Ascii.eqb_sym, upper_dot, Ascii.eqb_sym.
Qed.

Section Facade.
Import AcmLib.
Context {any : Type} `{Json any}.
Variable truthy : any -> bool.
Variable stringify_addon : AddonData -> string.
Variable parse_trigger : string -> option (string * string).
Variable getEntity : string -> option Player.
Variable App : Type.
Variable run : forall c : Channel,
    Signal.Callback -> Signal.Event (any := any) c -> Eff App unit.
Implicit Types (p q : Process App) (a : AddonData).

Abbreviation listener :=
  (extensionListener stringify_addon parse_trigger getEntity App run).

(** The address of a custom signal, as sent by the addon [a]. *)
Lemma signal_address a (eventId : string) :
  toUpperCase ("acm:signal." +:+ localId_of a +:+ "." +:+ eventId) =
  "ACM:SIGNAL" +:+ "." +:+ toUpperCase (localId_of a) +:+ "." +:+
  toUpperCase eventId.
Proof. now rewrite !toUpperCase_append. Qed.

(** What the listener does with a well-formed custom-signal event. *)
Lemma listener_signal q (sender emitter msg : string) :
  includes sender "." = false ->
  listener {| event_id := "ACM:SIGNAL" +:+ "." +:+ sender +:+ "." +:+ emitter;
              message := msg |} q =
  match split_dot emitter with
  | e :: _ =>
      if String.eqb msg "void" then
        on_bus App (Signal.emit run OnCustomSignalEmitted
                      {| addonId := toLowerCase sender;
                         emitterId := toLowerCase e; data := None |}) q
      else
        match JSON_parse msg with
        | None => (Throw (SyntaxError msg), q)
        | Some d =>
            on_bus App (Signal.emit run OnCustomSignalEmitted
                          {| addonId := toLowerCase sender;
                             emitterId := toLowerCase e; data := Some d |}) q
        end
  | [] => (Throw TypeError, q)
  end.
Proof.
  intros Hs. unfold extensionListener. cbn [event_id message].
  assert (Hready : String.eqb
                     ("ACM:SIGNAL" +:+ "." +:+ sender +:+ "." +:+ emitter)
                     "acm:engine_ready" = false) by reflexivity.
  assert (Hstart : startsWith
                     ("ACM:SIGNAL" +:+ "." +:+ sender +:+ "." +:+ emitter)
                     "ACM:SIGNAL." = true) by reflexivity.
  rewrite Hready, Hstart.
  rewrite (split_dot_append "ACM:SIGNAL" _ eq_refl), (split_dot_append sender _ Hs).
  destruct (split_dot_first emitter) as [rest ->].
  destruct (String.eqb msg "void"); [reflexivity|].
  now destruct (JSON_parse msg).
Qed.

(** Custom signals, from emit to the subscribers.  When the addon [a],
    whose identifier is ASCII text without dot, calls emit(eventId,
    data) with an ASCII [eventId], one script event is sent and nothing
    else changes; a listener that receives this event emits, on the
    custom-signal channel, the lower-case identifier of [a], the
    lower-case text of [eventId] before its first dot, and the data:
    the value given when it counts as true (and is serializable, with a
    text other than void), and no data otherwise.  (Outside ASCII the
    upper-case form sent need not have the lower-case form of the
    identifier: the statement is about ASCII text only.) *)
Theorem custom_signal_round_trip p q a (eventId : string) (data : option any) :
  AcmLib_addonData (world p) = Some a ->
  ascii_only (localId_of a) = true -> ascii_only eventId = true ->
  includes (localId_of a) "." = false ->
  (forall d, data = Some d -> truthy d = true ->
     serializable d /\ JSON_stringify d <> "void") ->
  exists id msg,
    emit truthy App eventId data p =
      (Return tt,
       {| world := world p; signals := signals p;
          responseAdress := responseAdress p; hasExtensions := hasExtensions p;
          sent := sent p ++ [(id, msg)] |}) /\
    listener {| event_id := id; message := msg |} q =
    on_bus App
      (Signal.emit run OnCustomSignalEmitted
         {| addonId := toLowerCase (localId_of a);
            emitterId := toLowerCase (hd "" (split_dot eventId));
            data := match data with
                    | Some d => if truthy d then Some d else None
                    | None => None
                    end |}) q.
Proof.
  intros Ha Hid Hevent Hdot Hdata. do 2 eexists. split.
  - unfold emit, in_world, get_addonData, sendScriptEvent.
    unfold mbind, Eff_bind, bind. cbv beta iota. rewrite Ha.
    cbv beta iota. reflexivity.
  - fold (localId_of a). rewrite signal_address.
    rewrite (listener_signal q _ _ _ (upper_keeps_dots _ Hdot)).
    rewrite split_dot_upper.
    pose proof (split_dot_ascii eventId Hevent) as Hfirst.
    destruct (split_dot_first eventId) as [rest ->]. cbn [map hd] in *.
    rewrite (toLowerCase_upper _ Hid), (toLowerCase_upper _ Hfirst).
    destruct data as [d|]; [|reflexivity].
    destruct (truthy d) eqn:Ht; [|reflexivity].
    destruct (Hdata d eq_refl Ht) as [Hser Hvoid].
    apply String.eqb_neq in Hvoid. rewrite Hvoid. unfold serializable in Hser.
    now rewrite Hser.
Qed.

(** A custom-signal address with a single dot.  The listener throws a
    TypeError on an event whose id starts with ACM:SIGNAL. and has no
    further dot, whatever the message, and no subscriber is called. *)
Theorem short_signal_address_throws q (rest msg : string) :
  includes rest "." = false ->
  listener {| event_id := "ACM:SIGNAL" +:+ "." +:+ rest; message := msg |} q =
  (Throw TypeError, q).
Proof.
  intros Hrest. unfold extensionListener. cbn [event_id message].
  assert (Hready : String.eqb ("ACM:SIGNAL" +:+ "." +:+ rest)
                     "acm:engine_ready" = false) by reflexivity.
  assert (Hstart : startsWith ("ACM:SIGNAL" +:+ "." +:+ rest) "ACM:SIGNAL." = true)
    by reflexivity.
  rewrite Hready, Hstart.
  rewrite (split_dot_append "ACM:SIGNAL" _ eq_refl).
  assert (Hsplit : split_dot rest = [rest]).
  { clear - Hrest. induction rest as [|x s IH]; [reflexivity|].
    cbn [includes startsWith] in Hrest.
    rewrite andb_true_r, orb_false_iff in Hrest. destruct Hrest as [Hx Hs].
    cbn [split_dot]. now rewrite Ascii.eqb_sym, Hx, (IH Hs). }
  now rewrite Hsplit.
Qed.

End Facade.

Section FacadeEvents.
Import AcmLib.
Context {any : Type} `{Json any}.
Variable stringify_addon : AddonData -> string.
Variable parse_trigger : string -> option (string * string).
Variable getEntity : string -> option Player.
Variable App : Type.
Variable run : forall c : Channel,
    Signal.Callback -> Signal.Event (any := any) c -> Eff App unit.
Implicit Types (p q : Process App) (a : AddonData).

Abbreviation listener' :=
  (extensionListener stringify_addon parse_trigger getEntity App run).

(** The engine-ready event.  Whatever its message: without addon data
    the listener throws "addon data is undefined." and nothing is sent;
    with addon data it sends one acm:addon_ready event carrying the
    serialized addon data and then runs the emit of the addon-ready
    class on the event that holds the addon data: every subscriber of
    that class is called on this event, in order (the application is
    left in the state they make, their errors are on the console), and
    the listener returns, whatever the subscribers do; the world and
    the subscriptions stay as they are. *)
Theorem engine_ready_announces p (msg : string) :
  (AcmLib_addonData (world p) = None ->
     listener' {| event_id := "acm:engine_ready"; message := msg |} p =
     (Throw (Error_message "addon data is undefined."), p)) /\
  (forall a, AcmLib_addonData (world p) = Some a ->
     exists p',
       listener' {| event_id := "acm:engine_ready"; message := msg |} p =
       (Return tt, p') /\
       listener' {| event_id := "acm:engine_ready"; message := msg |} p =
       on_bus App (Signal.emit run OnAddonReady {| addonData := a |})
         {| world := world p; signals := signals p;
            responseAdress := responseAdress p;
            hasExtensions := hasExtensions p;
            sent := sent p ++ [("acm:addon_ready", stringify_addon a)] |} /\
       sent p' = (sent p ++ [("acm:addon_ready", stringify_addon a)])%list /\
       world p' = world p /\
       Signal.statics (signals p') = Signal.statics (signals p) /\
       calls_since (signals p) (signals p') =
         map (pair OnAddonReady)
             (Signal.subscribers OnAddonReady (Signal.statics (signals p))) /\
       Signal.app (signals p') =
         left_by run OnAddonReady {| addonData := a |}
           (Signal.subscribers OnAddonReady (Signal.statics (signals p)))
           (Signal.app (signals p)) /\
       Signal.errors (signals p') =
         (Signal.errors (signals p) ++
          map (pair (report OnAddonReady))
              (fst (thrown run OnAddonReady {| addonData := a |}
                      (Signal.subscribers OnAddonReady
                         (Signal.statics (signals p)))
                      (Signal.app (signals p)))))%list).
Proof.
  destruct p as [w b ra he s]. cbn [world signals sent]. split.
  - intros Ha. unfold extensionListener, onWorldReady, in_world, get_addonData.
    unfold mbind, Eff_bind, bind, throw. cbn. now rewrite Ha.
  - intros a Ha.
    destruct (emit_run App run OnAddonReady {| addonData := a |} b)
      as (b' & He & Hs & Hc & Herr & Happ).
    exists {| world := w; signals := b'; responseAdress := ra;
              hasExtensions := he;
              sent := s ++ [("acm:addon_ready", stringify_addon a)] |}.
    assert (Hrun : extensionListener stringify_addon parse_trigger getEntity
                     App run
                     {| event_id := "acm:engine_ready"; message := msg |}
                     {| world := w; signals := b; responseAdress := ra;
                        hasExtensions := he; sent := s |} =
                   on_bus App (Signal.emit run OnAddonReady {| addonData := a |})
                     {| world := w; signals := b; responseAdress := ra;
                        hasExtensions := he;
                        sent := s ++ [("acm:addon_ready", stringify_addon a)] |}).
    { unfold extensionListener, onWorldReady, in_world, get_addonData,
        sendScriptEvent.
      unfold mbind, Eff_bind, bind, throw. cbn. now rewrite Ha. }
    split; [|split; [exact Hrun|]].
    { rewrite Hrun. unfold on_bus. cbn [signals world responseAdress
                                        hasExtensions sent].
      now rewrite He. }
    cbn [signals responseAdress hasExtensions sent world].
    split; [reflexivity|]. split; [reflexivity|]. split; [exact Hs|].
    split; [|split; [exact Happ|exact Herr]].
    unfold calls_since. now rewrite Hc, skipn_length_app.
Qed.

Lemma localId_not_empty a : exists c r, localId_of a = String c r.
Proof.
  unfold localId_of. destruct (author (description a)) as [|c r]; eauto.
Qed.

(** Extension triggers.  After initAddon with addon data that lists
    extensions, in a process that was not initialized: a second
    initAddon throws "Addon already initialized" and changes nothing;
    an event addressed acm:ext_<identifier> with a non-empty message
    naming a player and an extension is emitted on the
    extension-triggered channel exactly when the id of some listed
    extension includes the named extension and the player exists, and
    is dropped otherwise; an event with any other address that is
    neither the engine-ready event nor a custom signal is dropped. *)
Theorem extension_triggers p a (exts : list ExtensionData) :
  AcmLib_addonData (world p) = None ->
  extensions a = Some exts ->
  exists p1,
    initAddon App a p = (Return tt, p1) /\
    AcmLib_addonData (world p1) = Some a /\
    (forall a', initAddon App a' p1 =
                (Throw (Error_message "Addon already initialized"), p1)) /\
    (forall msg playerId extensionId,
       msg <> "" -> parse_trigger msg = Some (playerId, extensionId) ->
       listener' {| event_id := "acm:ext_" +:+ localId_of a; message := msg |} p1 =
       if existsb (fun extension => includes (extension_id extension) extensionId)
                  exts
       then match getEntity playerId with
            | Some player =>
                on_bus App (Signal.emit run OnExtensionTriggerd
                              {| extensionId := extensionId; player := player |})
                       p1
            | None => (Return tt, p1)
            end
       else (Return tt, p1)) /\
    (forall event,
       String.eqb (event_id event) "acm:engine_ready" = false ->
       startsWith (event_id event) "ACM:SIGNAL." = false ->
       event_id event <> "acm:ext_" +:+ localId_of a ->
       listener' event p1 = (Return tt, p1)).
Proof.
  destruct p as [w b ra he s]. cbn [world]. intros Hw Hexts.
  destruct (localId_not_empty a) as (c & r & Hid).
  exists {| world := {| scoreboard := scoreboard w; AcmLib_addonData := Some a;
                        warnings := warnings w |};
            signals := b; responseAdress := Some (String c r);
            hasExtensions := true; sent := s |}.
  rewrite Hid.
  split; [unfold initAddon; cbn [world]; fold (localId_of a);
          now rewrite Hw, Hexts, Hid|].
  split; [reflexivity|]. split; [reflexivity|]. split.
  - intros msg playerId extensionId Hmsg Hparse.
    apply String.eqb_neq in Hmsg.
    unfold extensionListener, in_world, get_addonData, get_fields.
    unfold mbind, mret, Eff_bind, Eff_ret, bind, ret, throw.
    cbn [event_id message world responseAdress hasExtensions AcmLib_addonData].
    assert (Hready : String.eqb ("acm:ext_" +:+ String c r) "acm:engine_ready"
                     = false) by reflexivity.
    assert (Hsig : startsWith ("acm:ext_" +:+ String c r) "ACM:SIGNAL." = false)
      by reflexivity.
    rewrite Hready, Hsig.
    cbn [world responseAdress hasExtensions AcmLib_addonData].
    rewrite Hexts, Hmsg, String.eqb_refl.
    cbn [negb orb]. rewrite Hparse.
    destruct (existsb _ exts); cbn [negb]; [|reflexivity].
    now destruct (getEntity playerId).
  - intros event Hready Hsig Hid'.
    apply String.eqb_neq in Hid'.
    unfold extensionListener, in_world, get_addonData, get_fields.
    unfold mbind, mret, Eff_bind, Eff_ret, bind, ret, throw.
    cbn [world responseAdress hasExtensions AcmLib_addonData].
    rewrite Hready, Hsig.
    cbn [world responseAdress hasExtensions AcmLib_addonData].
    rewrite Hexts, Hid'.
    cbn [negb orb]. now rewrite orb_true_r.
Qed.

End FacadeEvents.

(** ** The log *)









Lemma custom_signal_round_trip_witness :
  let p := process_of (world_of []) [] in
  let q := process_of blank_world [1; 2] in
  exists id msg,
    AcmLib.emit literal_truthy nat "Ping.now" (Some JTrue) p =
      (Return tt,
       {| world := world p; signals := signals p;
          responseAdress := responseAdress p; hasExtensions := hasExtensions p;
          sent := sent p ++ [(id, msg)] |}) /\
    AcmLib.extensionListener addon_text parse_known_trigger known_entity nat faulty
      {| event_id := id; message := msg |} q =
    AcmLib.on_bus nat
      (Signal.emit faulty OnCustomSignalEmitted
         {| addonId := "me_pack"; emitterId := "ping"; data := Some JTrue |}) q.
Proof.
  apply (custom_signal_round_trip literal_truthy addon_text parse_known_trigger
           known_entity nat faulty
           (process_of (world_of []) []) (process_of blank_world [1; 2])
           me_pack "Ping.now" (Some JTrue) eq_refl eq_refl eq_refl eq_refl).
  intros d [= <-] _. split; [reflexivity|discriminate].
Defined.

Lemma short_signal_address_throws_witness :
  AcmLib.extensionListener addon_text parse_known_trigger known_entity nat faulty
    {| event_id := "ACM:SIGNAL.ME_PACK"; message := "void" |}
    (process_of blank_world [1; 2])
  = (Throw TypeError, process_of blank_world [1; 2]).
Proof.
  exact (short_signal_address_throws addon_text parse_known_trigger known_entity
           nat faulty (process_of blank_world [1; 2]) "ME_PACK" "void" eq_refl).
Defined.

Lemma extension_triggers_witness :
  let p := process_of blank_world [] in
  exists p1,
    AcmLib.initAddon nat with_menu p = (Return tt, p1) /\
    AcmLib.initAddon nat me_pack p1 =
      (Throw (Error_message "Addon already initialized"), p1) /\
    AcmLib.extensionListener addon_text parse_known_trigger known_entity nat faulty
      {| event_id := "acm:ext_me_pack"; message := menu_trigger |} p1 =
    AcmLib.on_bus nat
      (Signal.emit faulty OnExtensionTriggerd
         {| extensionId := "menu"; player := "p1" |}) p1 /\
    AcmLib.extensionListener addon_text parse_known_trigger known_entity nat faulty
      {| event_id := "acm:ext_other_pack"; message := menu_trigger |} p1 =
    (Return tt, p1).
Proof.
  destruct (extension_triggers (any := literal) addon_text parse_known_trigger
              known_entity nat faulty (process_of blank_world []) with_menu
              [ {| extension_id := "main_menu"; extension_iconPath := None |} ]
              eq_refl eq_refl)
    as (p1 & Hinit & _ & Hagain & Hext & Hother).
  exists p1. split; [exact Hinit|]. split; [apply Hagain|]. split.
  - apply (Hext menu_trigger "p1" "menu"); [discriminate|reflexivity].
  - apply Hother; [reflexivity|reflexivity|discriminate].
Defined.


(** ** Files across the registry, deletions, delivery order *)

Lemma find_filter_other {A} (P Q : A -> bool) (l : list A) (q : A) :
  List.find P l = Some q -> Q q = true ->
  List.find P (List.filter Q l) = Some q.
Proof.
  induction l as [|x l IH]; simpl; [discriminate|].
  destruct (P x) eqn:Px.
  - intros [= ->] Hq. rewrite Hq. simpl. now rewrite Px.
  - intros Hf Hq. destruct (Q x); [simpl; rewrite Px|]; now apply IH.
Qed.

Section AcrossRegistry.
Context {any : Type} `{Json any}.
Implicit Types (d : Directory.t) (o : ScoreboardObjective) (w : World).
Implicit Types (f g p : string) (c : any).

(** Deleting a file leaves the others alone.  In a directory it owns,
    delete(f) removes the first entry that stands for [f] and no other
    participant, and every file whose entry is another participant is
    read as before. *)
Theorem delete_keeps_others d o f p :
  owned d -> entry f o = Some p ->
  exists o',
    Directory.delete d f o = (Return tt, o') /\
    participants o' =
      List.filter (fun q => negb (String.eqb q p)) (participants o) /\
    (forall g q, entry g o = Some q -> q <> p ->
       Directory.exists_ g o' = (Return true, o') /\
       fst (Directory.read g o') = fst (Directory.read g o)).
Proof.
  intros Hd Hp. rewrite (delete_run d f o Hd), Hp.
  eexists. split; [reflexivity|].
  set (o' := with_scores o _).
  assert (Hp' : participants o' =
                List.filter (fun q => negb (String.eqb q p)) (participants o)).
  { unfold o'. rewrite participants_with_scores. apply remove_participants. }
  split; [exact Hp'|]. intros g q Hq Hne.
  assert (Hq' : entry g o' = Some q).
  { unfold entry in *. rewrite Hp'. apply find_filter_other; [exact Hq|].
    now apply negb_true_iff, String.eqb_neq. }
  split.
  - rewrite exists_run. f_equal. f_equal. apply has_true. eauto.
  - now rewrite !read_run, Hq, Hq'.
Qed.

(** A file written through the Directory that new returned is read
    back through the Directory that a later get returns.  With the
    addon initialized and no ledger under format(name): new(name)
    returns a Directory; write(f,c) through it succeeds, for a
    serializable content; get(name) then returns an equal Directory,
    and read(f) through that one returns [c]. *)
Theorem file_survives_lookup w a (name f : string) c (ignoreWarn : bool) :
  AcmLib_addonData w = Some a ->
  scoreboard w !! formatted a name = None ->
  serializable c ->
  exists dir w1 w2,
    FsDir.new name ignoreWarn w = (Return dir, w1) /\
    through dir (Directory.write dir f c true) w1 = (Return (Fulfilled tt), w2) /\
    FsDir.get name w2 = (Return (Some dir), w2) /\
    fst (through dir (Directory.read f) w2) = Return c.
Proof.
  intros Ha Hdb Hc. rewrite (new_run w a name ignoreWarn Ha), Hdb.
  set (db := {| id := formatted a name; displayName := formatted a name;
                scores := [] |}).
  set (w1 := with_scoreboard w (<[formatted a name := db]> (scoreboard w))).
  assert (Hown : owned (directory_over a db)).
  { unfold owned, directory_over, db, formatted. cbn.
    rewrite <- (append_assoc ROOT_DIR "."). apply includes_intro. }
  destruct (write_fresh (directory_over a db) f c true db Hown eq_refl)
    as (db' & Hw & Hp).
  assert (Hid : id db' = formatted a name /\ displayName db' = formatted a name).
  { rewrite (write_run _ f c true db Hown) in Hw.
    cbn in Hw. injection Hw as <-. now split. }
  assert (H1 : scoreboard w1 !! formatted a name = Some db)
    by apply lookup_insert_eq.
  exists (directory_over a db), w1,
    (with_scoreboard w1 (<[formatted a name := db']> (scoreboard w1))).
  split; [reflexivity|]. split; [|split].
  - unfold through, AcmLib.on_objective. cbn [directory_over Directory.objective].
    change (id db) with (formatted a name). now rewrite H1, Hw.
  - rewrite (get_run (with_scoreboard w1 _) a name Ha).
    cbn [scoreboard with_scoreboard].
    rewrite lookup_insert_eq. cbn [fmap option_fmap option_map].
    unfold directory_over. destruct Hid as [-> ->]. reflexivity.
  - unfold through, AcmLib.on_objective. cbn [directory_over Directory.objective].
    change (id db) with (formatted a name).
    cbn [scoreboard with_scoreboard]. rewrite lookup_insert_eq.
    destruct (read_last f c db' (participants db) Hp eq_refl Hc) as [_ ->].
    reflexivity.
Qed.

End AcrossRegistry.

Section DeliveryOrder.
Import Signal.
Context {any : Type}.
Variable App : Type.
Variable run : forall c : Channel,
    Callback -> Event (any := any) c -> Eff App unit.

(** A new subscriber is called last.  Subscribing a function that is
    not in the set of its class puts it after the earlier subscribers
    in the set: the next emit of the class calls the earlier
    subscribers on the event, in their order, and then the new one
    (the application is left in the state the earlier ones make
    followed by the call of the new one, and the errors they throw are
    on the console); the sets of the other classes stay as they
    are. *)
Theorem new_subscriber_is_last (this : Instance) (f : Callback)
    (r : Runtime App) (event : Event (class this)) :
  ~ In f (subscribers (class this) (statics r)) ->
  exists r1 r2,
    subscribe this f r = (Return f, r1) /\
    emit run (class this) event r1 = (Return tt, r2) /\
    subscribers (class this) (statics r1) =
      (subscribers (class this) (statics r) ++ [f])%list /\
    calls_since r1 r2 =
      map (pair (class this)) (subscribers (class this) (statics r) ++ [f]) /\
    app r2 =
      left_by_call run (class this) event f
        (left_by run (class this) event
           (subscribers (class this) (statics r)) (app r)) /\
    errors r2 =
      (errors r ++
       map (pair (report (class this)))
           (fst (thrown run (class this) event
                   (subscribers (class this) (statics r) ++ [f]) (app r))))%list /\
    forall c, c <> class this ->
      subscribers c (statics r1) = subscribers c (statics r).
Proof.
  intros Hf. eexists.
  match goal with |- exists r2, _ = (_, ?s) /\ _ =>
    destruct (emit_run App run (class this) event s)
      as (r2 & He & _ & Hc & Herr & Ha) end.
  assert (Hset : Set_add f (subscribers (class this) (statics r)) =
                 (subscribers (class this) (statics r) ++ [f])%list).
  { unfold Set_add. rewrite bool_decide_eq_false_2; [reflexivity|].
    now rewrite list_elem_of_In. }
  exists r2. split; [reflexivity|]. split; [exact He|].
  cbn [statics app errors] in Hc, Herr, Ha.
  rewrite subscribers_set, Hset in Hc, Herr, Ha.
  cbn [statics]. rewrite subscribers_set.
  split; [exact Hset|]. split; [|split; [|split; [exact Herr|]]].
  - unfold calls_since. now rewrite Hc, skipn_length_app.
  - rewrite Ha. apply (left_by_snoc App run).
  - intros c Hc'. apply subscribers_set_other. congruence.
Qed.

End DeliveryOrder.

Lemma delete_keeps_others_witness :
  let o := ledger "ACM:FS.ME_PACK.LOGS" [("a:true", 0%Z); ("b:null", 1%Z)] in
  exists o',
    Directory.delete mine "a" o = (Return tt, o') /\
    participants o' = ["b:null"] /\
    Directory.exists_ "b" o' = (Return true, o') /\
    fst (Directory.read (any := literal) "b" o') =
    fst (Directory.read (any := literal) "b" o).
Proof.
  pose (o := ledger "ACM:FS.ME_PACK.LOGS" [("a:true", 0%Z); ("b:null", 1%Z)]).
  destruct (delete_keeps_others (any := literal) mine o "a" "a:true"
              eq_refl eq_refl) as (o' & Hdel & Hp & Hothers).
  exists o'. split; [exact Hdel|]. split; [exact Hp|].
  apply (Hothers "b" "b:null"); [reflexivity|discriminate].
Defined.

Lemma file_survives_lookup_witness :
  exists dir w1 w2,
    FsDir.new "logs" false (world_of []) = (Return dir, w1) /\
    through dir (Directory.write dir "a" JTrue true) w1
      = (Return (Fulfilled tt), w2) /\
    FsDir.get "logs" w2 = (Return (Some dir), w2) /\
    fst (through dir (Directory.read "a") w2) = Return JTrue.
Proof.
  exact (file_survives_lookup (world_of []) me_pack "logs" "a" JTrue false
           eq_refl eq_refl eq_refl).
Defined.

Lemma new_subscriber_is_last_witness :
  let this := {| Signal.class := OnCustomSignalEmitted; Signal.object := 3 |} in
  exists r1 r2,
    Signal.subscribe this 7 (bus [3; 5]) = (Return 7, r1) /\
    Signal.emit faulty OnCustomSignalEmitted ping r1 = (Return tt, r2) /\
    Signal.subscribers OnCustomSignalEmitted (Signal.statics r1) = [3; 5; 7] /\
    calls_since r1 r2 =
      [(OnCustomSignalEmitted, 3); (OnCustomSignalEmitted, 5);
       (OnCustomSignalEmitted, 7)] /\
    Signal.app r2 = 3 /\
    Signal.errors r2 = [] /\
    forall c, c <> OnCustomSignalEmitted ->
      Signal.subscribers c (Signal.statics r1) =
      Signal.subscribers c (Signal.statics (bus [3; 5])).
Proof.
  apply (new_subscriber_is_last nat faulty
           {| Signal.class := OnCustomSignalEmitted; Signal.object := 3 |}
           7 (bus [3; 5]) ping).
  intros [E|[E|[]]]; discriminate E.
Defined.

(** ** Slot numbers *)

Lemma score_set_entry (l : list (string * Z)) (k q : string) (v : Z)
    (o : ScoreboardObjective) :
  score (with_scores o (set_entry l k v)) q =
  if String.eqb k q then Some v else score (with_scores o l) q.
Proof.
  unfold score. cbn [scores with_scores].
  induction l as [|[p w] l IH]; cbn [set_entry List.find fst].
  - destruct (String.eqb k q); reflexivity.
  - destruct (String.eqb p k) eqn:Epk; cbn [List.find fst].
    + apply String.eqb_eq in Epk as ->.
      destruct (String.eqb k q); reflexivity.
    + destruct (String.eqb p q) eqn:Epq; [|exact IH].
      apply String.eqb_eq in Epq as ->.
      now rewrite String.eqb_sym, Epk.
Qed.

Lemma score_filter (l : list (string * Z)) (p q : string)
    (o : ScoreboardObjective) :
  q <> p ->
  score (with_scores o
           (List.filter (fun e => negb (String.eqb (fst e) p)) l)) q =
  score (with_scores o l) q.
Proof.
  intros Hq. unfold score. cbn [scores with_scores].
  induction l as [|[x w] l IH]; [reflexivity|].
  cbn [List.filter List.find fst].
  destruct (String.eqb x p) eqn:Exp; cbn [negb List.find fst].
  - apply String.eqb_eq in Exp as ->.
    apply String.eqb_neq in Hq. rewrite String.eqb_sym, Hq. exact IH.
  - destruct (String.eqb x q); [reflexivity|exact IH].
Qed.

Lemma filter_out_one (l : list string) (p : string) :
  NoDup l -> In p l ->
  S (length (List.filter (fun q => negb (String.eqb q p)) l)) = length l.
Proof.
  induction l as [|x l IH]; intros Hnd Hin; [destruct Hin|].
  apply NoDup_cons in Hnd as [Hx Hnd]. rewrite list_elem_of_In in Hx.
  cbn [List.filter length]. destruct (String.eqb x p) eqn:E; cbn [negb length].
  - apply String.eqb_eq in E as ->. f_equal.
    clear IH Hin Hnd. induction l as [|y l IH]; [reflexivity|].
    cbn [List.filter]. destruct (String.eqb y p) eqn:E; cbn [negb length].
    + apply String.eqb_eq in E as ->. destruct Hx. now left.
    + f_equal. apply IH. intros Hp. apply Hx. now right.
  - f_equal. apply IH; [exact Hnd|].
    destruct Hin as [->|Hin]; [|exact Hin].
    now rewrite String.eqb_refl in E.
Qed.

Section Slots.
Context {any : Type} `{Json any}.
Implicit Types (d : Directory.t) (o : ScoreboardObjective).
Implicit Types (f g p : string) (c : any).

(** Slot numbers are reused.  In a directory it owns whose participants
    have distinct names, after delete(f) and then write(g,c) for a name
    without entry, the new entry has the slot n-1, where n was the
    number of participants before the delete, and every other
    participant keeps its slot: a participant that had the slot n-1
    now shares it with the new entry. *)
Theorem slot_is_reused d o f g p c :
  owned d -> NoDup (participants o) ->
  entry f o = Some p -> has g o = false ->
  exists o1 o2,
    Directory.delete d f o = (Return tt, o1) /\
    Directory.write d g c true o1 = (Return (Fulfilled tt), o2) /\
    score o2 (g +:+ ":" +:+ JSON_stringify c) =
      Some (Z.of_nat (length (participants o)) - 1)%Z /\
    (forall q, q <> p -> q <> g +:+ ":" +:+ JSON_stringify c ->
       score o2 q = score o q).
Proof.
  intros Hd Hnd Hp Hg. rewrite (delete_run d f o Hd), Hp.
  eexists. eexists. split; [reflexivity|].
  set (o1 := with_scores o _).
  assert (Hp1 : participants o1 =
                List.filter (fun q => negb (String.eqb q p)) (participants o)).
  { unfold o1. rewrite participants_with_scores. apply remove_participants. }
  assert (Hg1 : has g o1 = false).
  { apply has_false. unfold entry. rewrite Hp1. apply find_none_iff.
    intros q [Hq _]%filter_In. apply has_false in Hg.
    exact (find_none _ _ Hg q Hq). }
  rewrite (write_run d g c true o1 Hd), Hg1. cbn [andb].
  split; [reflexivity|]. split.
  - rewrite score_set_entry, String.eqb_refl. f_equal.
    fold o1. rewrite Hp1.
    apply find_some in Hp as [Hin _].
    pose proof (filter_out_one (participants o) p Hnd Hin). lia.
  - intros q Hqp Hqk. rewrite score_set_entry.
    apply String.eqb_neq in Hqk. rewrite String.eqb_sym, Hqk.
    cbn [scores with_scores].
    assert (Hsame : forall x l, score (with_scores (with_scores o x) l) q =
                                score (with_scores o l) q) by reflexivity.
    rewrite Hsame, (score_filter (scores o) p q o Hqp). now destruct o.
Qed.

End Slots.

Lemma slot_is_reused_witness :
  let o := ledger "ACM:FS.ME_PACK.LOGS" [("a:true", 0%Z); ("b:null", 1%Z)] in
  exists o1 o2,
    Directory.delete mine "a" o = (Return tt, o1) /\
    Directory.write mine "c" JFalse true o1 = (Return (Fulfilled tt), o2) /\
    score o2 "c:false" = Some 1%Z /\
    score o2 "b:null" = Some 1%Z.
Proof.
  pose (o := ledger "ACM:FS.ME_PACK.LOGS" [("a:true", 0%Z); ("b:null", 1%Z)]).
  destruct (slot_is_reused mine o "a" "c" "a:true" JFalse eq_refl)
    as (o1 & o2 & Hdel & Hw & Hnew & Hold); [|reflexivity|reflexivity|].
  - now apply (bool_decide_unpack _).
  - exists o1, o2. split; [exact Hdel|]. split; [exact Hw|].
    split; [exact Hnew|].
    rewrite (Hold "b:null"); [reflexivity|discriminate|discriminate].
Defined.

(** ** Unsubscribing *)

Lemma Set_delete_absent (f : Signal.Callback) (l : list Signal.Callback) :
  ~ In f l -> Signal.Set_delete f l = l.
Proof.
  unfold Signal.Set_delete. induction l as [|y l IH]; intros Hf; [reflexivity|].
  cbn [List.filter]. destruct (Nat.eqb y f) eqn:E; cbn [negb].
  - apply Nat.eqb_eq in E as ->. destruct Hf. now left.
  - f_equal. apply IH. intros Hy. apply Hf. now right.
Qed.

Lemma Set_delete_middle (f : Signal.Callback) (l1 l2 : list Signal.Callback) :
  ~ In f l1 -> ~ In f l2 ->
  Signal.Set_delete f (l1 ++ f :: l2)%list = (l1 ++ l2)%list.
Proof.
  intros H1 H2.
  pose proof (Set_delete_absent f l1 H1) as E1.
  pose proof (Set_delete_absent f l2 H2) as E2.
  unfold Signal.Set_delete in *.
  rewrite List.filter_app. cbn [List.filter]. rewrite Nat.eqb_refl. cbn [negb].
  exact (f_equal2 (@app _) E1 E2).
Qed.

Lemma set_subscribers_same (c : Channel) (st : Signal.Statics) :
  Signal.set_subscribers c (Signal.subscribers c st) st = st.
Proof. now destruct c, st. Qed.

Section Unsubscribing.
Import Signal.
Context {any : Type}.
Variable App : Type.
Variable run : forall c : Channel,
    Callback -> Event (any := any) c -> Eff App unit.

(** X25.  Unsubscribing keeps the order of the others.  When the set
    of the class lists the function f between the functions l1 and
    l2, after unsubscribe(f) the set lists l1 and then l2, and the
    next emit of the class calls l1 and then l2 on the event, in their
    order, and not f (the application is left in the state they make,
    and the errors they throw are on the console); the sets of the
    other classes stay as they are. *)
Theorem unsubscribe_keeps_order (this : Instance) (f : Callback)
    (l1 l2 : list Callback) (r : Runtime App) (event : Event (class this)) :
  subscribers (class this) (statics r) = (l1 ++ f :: l2)%list ->
  ~ In f l1 -> ~ In f l2 ->
  exists r1 r2,
    unsubscribe this f r = (Return tt, r1) /\
    emit run (class this) event r1 = (Return tt, r2) /\
    subscribers (class this) (statics r1) = (l1 ++ l2)%list /\
    calls_since r1 r2 = map (pair (class this)) (l1 ++ l2)%list /\
    app r2 = left_by run (class this) event (l1 ++ l2)%list (app r) /\
    errors r2 =
      (errors r ++
       map (pair (report (class this)))
           (fst (thrown run (class this) event (l1 ++ l2)%list (app r))))%list /\
    forall c, c <> class this ->
      subscribers c (statics r1) = subscribers c (statics r).
Proof.
  intros Hl H1 H2. eexists.
  match goal with |- exists r2, _ = (_, ?s) /\ _ =>
    destruct (emit_run App run (class this) event s)
      as (r2 & He & _ & Hc & Herr & Ha) end.
  exists r2. split; [reflexivity|]. split; [exact He|].
  cbn [statics app errors] in Hc, Herr, Ha.
  rewrite subscribers_set, Hl, Set_delete_middle in Hc, Herr, Ha
    by assumption.
  cbn [statics]. rewrite subscribers_set, Hl, Set_delete_middle by assumption.
  split; [reflexivity|]. split; [|split; [exact Ha|split; [exact Herr|]]].
  - unfold calls_since. now rewrite Hc, skipn_length_app.
  - intros c Hc'. apply subscribers_set_other. congruence.
Qed.

(** X26.  Unsubscribing a function that is not in the set of the
    class changes nothing: the whole state is as before. *)
Theorem unsubscribe_absent (this : Instance) (f : Callback) (r : Runtime App) :
  ~ In f (subscribers (class this) (statics r)) ->
  unsubscribe this f r = (Return tt, r).
Proof.
  intros Hf. unfold unsubscribe, update_subscribers.
  rewrite (Set_delete_absent f _ Hf), set_subscribers_same.
  now destruct r.
Qed.

End Unsubscribing.

Lemma unsubscribe_keeps_order_witness :
  let this := {| Signal.class := OnCustomSignalEmitted; Signal.object := 3 |} in
  exists r1 r2,
    Signal.unsubscribe this 5 (bus [3; 5; 7]) = (Return tt, r1) /\
    Signal.emit faulty OnCustomSignalEmitted ping r1 = (Return tt, r2) /\
    Signal.subscribers OnCustomSignalEmitted (Signal.statics r1) = [3; 7] /\
    calls_since r1 r2 =
      [(OnCustomSignalEmitted, 3); (OnCustomSignalEmitted, 7)] /\
    Signal.app r2 = 2 /\
    Signal.errors r2 = [] /\
    forall c, c <> OnCustomSignalEmitted ->
      Signal.subscribers c (Signal.statics r1) =
      Signal.subscribers c (Signal.statics (bus [3; 5; 7])).
Proof.
  apply (unsubscribe_keeps_order nat faulty
           {| Signal.class := OnCustomSignalEmitted; Signal.object := 3 |}
           5 [3] [7] (bus [3; 5; 7]) ping eq_refl).
  - intros [E|[]]; discriminate E.
  - intros [E|[]]; discriminate E.
Defined.

Lemma unsubscribe_absent_witness :
  let this := {| Signal.class := OnSettingsChanged; Signal.object := 1 |} in
  Signal.unsubscribe this 5 (bus [3; 5; 7]) = (Return tt, bus [3; 5; 7]).
Proof.
  apply (unsubscribe_absent nat
           {| Signal.class := OnSettingsChanged; Signal.object := 1 |}
           5 (bus [3; 5; 7])).
  intros [].
Defined.
